(** * User Weaknesses Analysis API: the aggregation endpoint of [src/app.py]

    A shallow embedding of [get_user_weaknesses] and of the Python
    operations it relies on, followed by the properties of the endpoint.

    Conventions of the embedding:
    - Python values that can reach the handler (decoded JSON) are the
      inductive [pyval]; a [dict] is an association list read by its first
      binding of a key.
    - Python [int] is [Z].  A finite [float] computed by the handler is the
      rational number it denotes: [error_rate] is the binary64 value of
      [(incorrect / total) * 100], each of the two operations rounded to the
      nearest binary64 number, ties to even, as CPython's true division of
      integers and its float multiplication are.  The value is kept in lowest
      terms, so equal floats are equal terms.  Floats found in the input are
      binary64 values.
    - Exceptions are values of [exn]; a computation that may raise returns a
      [result]; the loops that update [user_comprehensive_stats] thread the
      mapping explicitly, so that an exception leaves the updates made so far
      in place, as in Python.
    - [json.loads] and the [str()] rendering of floats and containers belong
      to the Python runtime and are parameters of the development.
    - The diagnostic [print] calls write to standard output only and are not
      part of the embedding. *)

From Stdlib Require Import ZArith QArith Qreduction Qround Qpower Qabs.
From Stdlib Require Import String Ascii List Bool Lia Lqa.
From Stdlib Require Import Floats DecimalString Sorted Permutation.
Import ListNotations.

Set Warnings "-register-all".
Local Open Scope list_scope.
Local Open Scope string_scope.

(** ** Python values and exceptions *)

Inductive pyval : Type :=
| PNone
| PBool (b : bool)
| PInt (z : Z)
| PFloat (f : float)
| PStr (s : string)
| PList (l : list pyval)
| PDict (d : list (string * pyval)).

(** The exception classes that occur, each with the text [str(e)] is built
    from; the texts of the built-in exceptions are those of CPython 3.11. *)
Inductive exn : Type :=
| JSONDecodeError (msg : string)
| TypeError (msg : string)
| KeyError (msg : string)
| AttributeError (msg : string)
| ValueError (msg : string)
| HTTPException (status_code : Z) (detail : string)
| OtherError (msg : string).

Inductive result (A : Type) : Type :=
| Ok (a : A)
| Raise (e : exn).

Arguments Ok {A} a.
Arguments Raise {A} e.

Definition string_of_Z (z : Z) : string :=
  NilZero.string_of_int (Z.to_int z).

(** [str(e)]: the message of a built-in exception; for [HTTPException] the
    status code and the detail, as Starlette renders it. *)
Definition exn_str (e : exn) : string :=
  match e with
  | JSONDecodeError m | TypeError m | KeyError m
  | AttributeError m | ValueError m | OtherError m => m
  | HTTPException c d => string_of_Z c ++ ": " ++ d
  end.

(** [type(v).__name__] *)
Definition type_name (v : pyval) : string :=
  match v with
  | PNone => "NoneType"
  | PBool _ => "bool"
  | PInt _ => "int"
  | PFloat _ => "float"
  | PStr _ => "str"
  | PList _ => "list"
  | PDict _ => "dict"
  end.

(** Truth value of an object, as tested by [if is_correct:]. *)
Definition truthy (v : pyval) : bool :=
  match v with
  | PNone => false
  | PBool b => b
  | PInt z => negb (Z.eqb z 0)
  | PFloat f => negb (PrimFloat.eqb f 0%float)
  | PStr s => negb (String.eqb s EmptyString)
  | PList l => match l with [] => false | _ :: _ => true end
  | PDict d => match d with [] => false | _ :: _ => true end
  end.

Fixpoint assoc_lookup {V : Type} (k : string) (d : list (string * V)) : option V :=
  match d with
  | [] => None
  | (k', v) :: d' => if String.eqb k k' then Some v else assoc_lookup k d'
  end.

(** [test['question_details']] *)
Definition py_getitem (v : pyval) (k : string) : result pyval :=
  match v with
  | PDict d =>
      match assoc_lookup k d with
      | Some x => Ok x
      | None => Raise (KeyError ("'" ++ k ++ "'"))
      end
  | PList _ => Raise (TypeError "list indices must be integers or slices, not str")
  | PStr _ => Raise (TypeError "string indices must be integers, not 'str'")
  | _ => Raise (TypeError ("'" ++ type_name v ++ "' object is not subscriptable"))
  end.

(** [question.get(k, default)] *)
Definition py_get (v : pyval) (k : string) (default : pyval) : result pyval :=
  match v with
  | PDict d =>
      match assoc_lookup k d with
      | Some x => Ok x
      | None => Ok default
      end
  | _ => Raise (AttributeError ("'" ++ type_name v ++ "' object has no attribute 'get'"))
  end.

(** The items a [for] loop draws from a value: the elements of a list, the
    keys of a dict, the characters of a string. *)
Definition py_iter (v : pyval) : result (list pyval) :=
  match v with
  | PList l => Ok l
  | PDict d => Ok (map (fun kv => PStr (fst kv)) d)
  | PStr s => Ok (map (fun c => PStr (String c EmptyString)) (list_ascii_of_string s))
  | _ => Raise (TypeError ("'" ++ type_name v ++ "' object is not iterable"))
  end.

(** ** [str.split] with a separator *)

(** The separator is the literal [" | "] throughout, so the [ValueError] of
    an empty separator does not arise. *)

Fixpoint is_prefix (p s : string) : bool :=
  match p with
  | EmptyString => true
  | String a p' =>
      match s with
      | EmptyString => false
      | String b s' => if Ascii.eqb a b then is_prefix p' s' else false
      end
  end.

(** Left-to-right scan for non-overlapping occurrences of [sep]: [skip]
    counts the characters of a matched separator still to pass over, [cur]
    is the part being read, reversed. *)
Fixpoint split_scan (sep : string) (skip : nat) (cur : list ascii) (s : string)
  : list string :=
  match s with
  | EmptyString => [string_of_list_ascii (rev cur)]
  | String c s' =>
      match skip with
      | S k => split_scan sep k cur s'
      | O =>
          if is_prefix sep s
          then string_of_list_ascii (rev cur)
                 :: split_scan sep (String.length sep - 1) [] s'
          else split_scan sep 0 (c :: cur) s'
      end
  end.

Definition split (sep s : string) : list string := split_scan sep 0 [] s.

(** ** The models of the response, and the sort *)

Record SubtopicWeakness : Type := {
  subtopic : string;
  section : string;
  error_rate : Q;
  total_questions : Z;
  correct_answers : Z;
  incorrect_answers : Z
}.

Record UserWeaknessResponse : Type := {
  user_id : string;
  weaknesses : list SubtopicWeakness;
  total_areas_analyzed : Z
}.

(** What the client receives: the body of a 200 response, or the status
    code and detail of the [HTTPException] that left the handler. *)
Inductive http_response : Type :=
| Response200 (body : UserWeaknessResponse)
| ResponseError (status_code : Z) (detail : string).

(** [weaknesses.sort(key=lambda x: x.error_rate, reverse=True)]: a stable
    sort, highest key first; entries with equal keys keep their order. *)
Fixpoint insert_desc (x : SubtopicWeakness) (l : list SubtopicWeakness)
  : list SubtopicWeakness :=
  match l with
  | [] => [x]
  | y :: l' =>
      if Qle_bool (error_rate y) (error_rate x)
      then x :: y :: l'
      else y :: insert_desc x l'
  end.

Definition sort_desc (l : list SubtopicWeakness) : list SubtopicWeakness :=
  fold_right insert_desc [] l.

(** ** The accumulator [user_comprehensive_stats] *)

Record counts : Type := {
  correct : Z;
  incorrect : Z;
  total : Z
}.

(** The factory of the [defaultdict]. *)
Definition zero_counts : counts := {| correct := 0; incorrect := 0; total := 0 |}.

(** Keys in order of insertion, as [dict.items()] lists them. *)
Definition stats_map : Type := list (string * counts).

(** [stats[k][name] += 1]: a key not yet present is first inserted, at the
    end, with the factory's value. *)
Fixpoint update_item (k : string) (f : counts -> counts) (m : stats_map) : stats_map :=
  match m with
  | [] => [(k, f zero_counts)]
  | (k', c) :: m' =>
      if String.eqb k k' then (k', f c) :: m' else (k', c) :: update_item k f m'
  end.

Definition incr_correct (c : counts) : counts :=
  {| correct := correct c + 1; incorrect := incorrect c; total := total c |}.
Definition incr_incorrect (c : counts) : counts :=
  {| correct := correct c; incorrect := incorrect c + 1; total := total c |}.
Definition incr_total (c : counts) : counts :=
  {| correct := correct c; incorrect := incorrect c; total := total c + 1 |}.

(** Computations that read and update the accumulator and may raise. *)
Definition M (A : Type) : Type := stats_map -> stats_map * result A.

Definition ret {A : Type} (a : A) : M A := fun st => (st, Ok a).
Definition raise {A : Type} (e : exn) : M A := fun st => (st, Raise e).
Definition bind {A B : Type} (m : M A) (k : A -> M B) : M B :=
  fun st =>
    match m st with
    | (st', Ok a) => k a st'
    | (st', Raise e) => (st', Raise e)
    end.
Definition lift {A : Type} (r : result A) : M A := fun st => (st, r).
Definition modify (f : stats_map -> stats_map) : M unit := fun st => (f st, Ok tt).

Notation "x <- m ;; k" := (bind m (fun x => k))
  (at level 61, m at next level, right associativity).
Notation "m ;;; k" := (bind m (fun _ => k))
  (at level 61, right associativity).

Fixpoint for_each {A : Type} (body : A -> M unit) (l : list A) : M unit :=
  match l with
  | [] => ret tt
  | x :: l' => body x ;;; for_each body l'
  end.

(** [try: body except (...) : pass], for the classes [catches] accepts. *)
Definition try_except (body : M unit) (catches : exn -> bool) : M unit :=
  fun st =>
    match body st with
    | (st', Raise e) => if catches e then (st', Ok tt) else (st', Raise e)
    | r => r
    end.

Definition is_TypeError_or_KeyError (e : exn) : bool :=
  match e with
  | TypeError _ | KeyError _ => true
  | _ => false
  end.

(** ** Binary64 arithmetic on the values of floats *)

Section Binary64.

Local Open Scope Q_scope.

(** The integer nearest to [x], the even one of two equally near. *)
Definition round_half_even (x : Q) : Z :=
  let f := Qfloor x in
  match Qcompare (x - inject_Z f) (1 # 2) with
  | Lt => f
  | Gt => (f + 1)%Z
  | Eq => if Z.even f then f else (f + 1)%Z
  end.

(** For [q > 0], the [k] with [2^k <= q < 2^(k+1)]. *)
Definition floor_log2 (q : Q) : Z :=
  let k := (Z.log2 (Qnum q) - Z.log2 (Zpos (Qden q)))%Z in
  if Qle_bool (2 ^ k) q then k else (k - 1)%Z.

(** The exponent of the unit in the last place of the binary64 numbers
    around [q > 0]: 53 significant bits, and [2^-1074] the least positive
    number. *)
Definition ulp_exponent (q : Q) : Z := Z.max (floor_log2 q - 52) (-1074).

(** The binary64 number nearest to [q], ties to even.  Overflow to an
    infinity is left out: no value rounded here exceeds 100. *)
Definition round_binary64 (q : Q) : Q :=
  match Qcompare q 0 with
  | Eq => 0
  | Gt => inject_Z (round_half_even (q / 2 ^ ulp_exponent q)) * 2 ^ ulp_exponent q
  | Lt =>
      - (inject_Z (round_half_even (- q / 2 ^ ulp_exponent (- q)))
         * 2 ^ ulp_exponent (- q))
  end.

(** [a / b] on two [int]: the quotient, correctly rounded. *)
Definition true_divide (a b : Z) : Q :=
  round_binary64 (inject_Z a / inject_Z b).

(** [x * y] on two floats. *)
Definition float_mul (x y : Q) : Q := round_binary64 (x * y).

(** The value of a primitive binary64 float, when it is finite. *)
Definition Q_of_float (f : float) : option Q :=
  match Prim2SF f with
  | S754_zero _ => Some 0
  | S754_finite s m e =>
      Some ((if s then - (1) else 1) * inject_Z (Zpos m) * 2 ^ e)
  | _ => None
  end.

(** [(i / t) * 100] computed with the primitive floats, for [i] and [t]
    below [2^53]. *)
Definition primitive_rate (i t : Z) : float :=
  PrimFloat.mul
    (PrimFloat.div (PrimFloat.of_uint63 (Uint63.of_Z i))
                   (PrimFloat.of_uint63 (Uint63.of_Z t)))
    (PrimFloat.of_uint63 (Uint63.of_Z 100)).

Definition agrees_with_primitive (i t : Z) : bool :=
  match Q_of_float (primitive_rate i t) with
  | Some q => Qeq_bool q (float_mul (true_divide i t) 100)
  | None => false
  end.

(** The pairs [(i, t)] with [1 <= t <= n] and [0 <= i <= t]. *)
Definition rate_inputs (n : nat) : list (Z * Z) :=
  flat_map (fun t => map (fun i => (Z.of_nat i, Z.of_nat (S t))) (seq 0 (S (S t))))
    (seq 0 n).

End Binary64.

(** The [error_rate] of one entry, lines 123-126. *)
Definition compute_error_rate (c : counts) : Q :=
  if (total c >? 0)%Z
  then Qred (float_mul (true_divide (incorrect c) (total c)) 100)
  else 0.

(** What the handler takes from the Python runtime: [json.loads] on a
    string (the decoded value, or the exception raised), and [str()] of a
    float, a list or a dict. *)
Class PyRuntime : Type := {
  json_loads : string -> result pyval;
  py_repr : pyval -> string
}.

Section Endpoint.

Context {RT : PyRuntime}.

(** A value interpolated in an f-string. *)
Definition format_value (v : pyval) : string :=
  match v with
  | PStr s => s
  | PNone => "None"
  | PBool true => "True"
  | PBool false => "False"
  | PInt z => string_of_Z z
  | _ => py_repr v
  end.

(** Lines 100-116: one pass of the loop over the questions of a test. *)
Definition process_question (question : pyval) : M unit :=
  subtopic <- lift (py_get question "subtopic" (PStr "Unknown")) ;;
  section <- lift (py_get question "section" (PStr "Unknown")) ;;
  let comprehensive_key := format_value subtopic ++ " | " ++ format_value section in
  is_correct <- lift (py_get question "isCorrect" (PBool false)) ;;
  (if truthy is_correct
   then modify (update_item comprehensive_key incr_correct)
   else modify (update_item comprehensive_key incr_incorrect)) ;;;
  modify (update_item comprehensive_key incr_total).

(** Lines 99-116. *)
Definition process_questions (questions : pyval) : M unit :=
  items <- lift (py_iter questions) ;;
  for_each process_question items.

(** Lines 88-119: one pass of the loop over the test records; [continue]
    leaves the pass at once. *)
Definition process_test (test : pyval) : M unit :=
  try_except
    (questions <- lift (py_getitem test "question_details") ;;
     match questions with
     | PStr s =>
         match json_loads s with
         | Ok decoded => process_questions decoded
         | Raise (JSONDecodeError _) => ret tt
         | Raise e => raise e
         end
     | _ => process_questions questions
     end)
    is_TypeError_or_KeyError.

(** Lines 122-126: every entry of the mapping receives its [error_rate]. *)
Definition with_error_rates (m : stats_map) : list (string * (counts * Q)) :=
  map (fun kc => (fst kc, (snd kc, compute_error_rate (snd kc)))) m.

(** Lines 129-141: the entries of the mapping turned into weaknesses. *)
Fixpoint build_weaknesses (items : list (string * (counts * Q)))
  : result (list SubtopicWeakness) :=
  match items with
  | [] => Ok []
  | (comprehensive_key, (stats, stats_error_rate)) :: rest =>
      if (total stats >=? 1)%Z
      then
        match split " | " comprehensive_key with
        | [subtopic; section] =>
            match build_weaknesses rest with
            | Ok ws =>
                Ok ({| subtopic := subtopic;
                       section := section;
                       error_rate := stats_error_rate;
                       total_questions := total stats;
                       correct_answers := correct stats;
                       incorrect_answers := incorrect stats |} :: ws)
            | Raise e => Raise e
            end
        | [] | [_] =>
            Raise (ValueError
              ("not enough values to unpack (expected 2, got "
                 ++ string_of_Z (Z.of_nat (List.length (split " | " comprehensive_key)))
                 ++ ")"))
        | _ => Raise (ValueError "too many values to unpack (expected 2)")
        end
      else build_weaknesses rest
  end.

(** The body of the outer [try], lines 72-150.  [fetched] is the outcome
    of the Supabase query: [response.data], or the exception raised. *)
Definition analyze (uid : string) (fetched : result (list pyval))
  : result UserWeaknessResponse :=
  match fetched with
  | Raise e => Raise e
  | Ok test_results =>
      match test_results with
      | [] =>
          Raise (HTTPException 404
                   ("No onboarding test data found for user " ++ uid))
      | _ :: _ =>
          match for_each process_test test_results [] with
          | (_, Raise e) => Raise e
          | (user_comprehensive_stats, Ok _) =>
              match build_weaknesses (with_error_rates user_comprehensive_stats) with
              | Raise e => Raise e
              | Ok ws =>
                  let sorted := sort_desc ws in
                  Ok {| user_id := uid;
                        weaknesses := sorted;
                        total_areas_analyzed := Z.of_nat (List.length sorted) |}
              end
          end
      end
  end.

(** Lines 71-153: every exception leaving the body, [HTTPException]
    included, is caught by [except Exception] and raised again as a 500. *)
Definition get_user_weaknesses (uid : string) (fetched : result (list pyval))
  : http_response :=
  match analyze uid fetched with
  | Ok body => Response200 body
  | Raise e =>
      ResponseError 500 ("Error analyzing user weaknesses: " ++ exn_str e)
  end.

End Endpoint.

(** ** Notions used to state the properties *)

(** A QuestionAttempt: one decoded JSON object of a question list. *)
Definition attempt : Type := list (string * pyval).

(** [w1] is not ranked below [w2]. *)
Definition rate_ge (w1 w2 : SubtopicWeakness) : Prop :=
  (error_rate w2 <= error_rate w1)%Q.

Definition has_rate (r : Q) (w : SubtopicWeakness) : bool :=
  Qeq_bool (error_rate w) r.

(** The key a weakness was emitted from, when it was split in two. *)
Definition group_key (w : SubtopicWeakness) : string :=
  subtopic w ++ " | " ++ section w.

(** Position of the first occurrence of [k] in [l] ([length l] if none). *)
Fixpoint first_index (k : string) (l : list string) : nat :=
  match l with
  | [] => O
  | k' :: l' => if String.eqb k k' then O else S (first_index k l')
  end.

(** The keys of [l], each once, in order of first occurrence. *)
Fixpoint first_seen (l : list string) : list string :=
  match l with
  | [] => []
  | k :: l' => k :: filter (fun k' => negb (String.eqb k k')) (first_seen l')
  end.

Definition sum_Z {A : Type} (f : A -> Z) (l : list A) : Z :=
  fold_right (fun x acc => (f x + acc)%Z) 0%Z l.

Fixpoint pipe_free (s : string) : bool :=
  match s with
  | EmptyString => true
  | String c s' => negb (Ascii.eqb c "|") && pipe_free s'
  end.

Definition is_dict (v : pyval) : bool :=
  match v with
  | PDict _ => true
  | _ => false
  end.

Definition is_str (v : pyval) : bool :=
  match v with
  | PStr _ => true
  | _ => false
  end.

Definition dict_entries (v : pyval) : list attempt :=
  match v with
  | PDict d => [d]
  | _ => []
  end.

(** The attempts of a decoded question collection: the objects of a list. *)
Definition attempts_in (questions : pyval) : list attempt :=
  match questions with
  | PList l => flat_map dict_entries l
  | _ => []
  end.

Definition well_formed_questions (questions : pyval) : bool :=
  match questions with
  | PList l => forallb is_dict l
  | _ => false
  end.

Section Views.

Context {RT : PyRuntime}.

(** The value [question.get(k, default)] reads from an attempt. *)
Definition attempt_get (d : attempt) (k : string) (default : pyval) : pyval :=
  match assoc_lookup k d with
  | Some x => x
  | None => default
  end.

Definition attempt_key (d : attempt) : string :=
  format_value (attempt_get d "subtopic" (PStr "Unknown")) ++ " | "
    ++ format_value (attempt_get d "section" (PStr "Unknown")).

Definition attempt_correct (d : attempt) : bool :=
  truthy (attempt_get d "isCorrect" (PBool false)).

(** The two updates one attempt makes to the accumulator. *)
Definition count_attempt (st : stats_map) (d : attempt) : stats_map :=
  update_item (attempt_key d) incr_total
    (update_item (attempt_key d)
       (if attempt_correct d then incr_correct else incr_incorrect) st).

(** The question collection of a test record, decoded when it is a string;
    [None] when the field is missing or does not decode. *)
Definition record_questions (test : pyval) : option pyval :=
  match py_getitem test "question_details" with
  | Ok (PStr s) =>
      match json_loads s with
      | Ok decoded => Some decoded
      | Raise _ => None
      end
  | Ok questions => Some questions
  | Raise _ => None
  end.

(** The attempts of a test record, in order. *)
Definition record_attempts (test : pyval) : list attempt :=
  match record_questions test with
  | Some questions => attempts_in questions
  | None => []
  end.

(** The attempts filed under the key [k]. *)
Definition attempts_with_key (k : string) (ds : list attempt) : list attempt :=
  filter (fun d => String.eqb (attempt_key d) k) ds.

(** A record whose question collection is a list of objects. *)
Definition well_formed_record (test : pyval) : bool :=
  match record_questions test with
  | Some questions => well_formed_questions questions
  | None => false
  end.

(** An attempt whose subtopic and section are free of the bar character. *)
Definition plain_attempt (d : attempt) : bool :=
  pipe_free (format_value (attempt_get d "subtopic" (PStr "Unknown")))
  && pipe_free (format_value (attempt_get d "section" (PStr "Unknown"))).

(** An attempt whose subtopic and section are strings; a field that is
    missing is read as the string ["Unknown"]. *)
Definition string_labels (d : attempt) : bool :=
  is_str (attempt_get d "subtopic" (PStr "Unknown"))
  && is_str (attempt_get d "section" (PStr "Unknown")).

End Views.

(** The values a [for] loop cannot draw items from. *)
Definition not_iterable (v : pyval) : bool :=
  match v with
  | PNone | PBool _ | PInt _ | PFloat _ => true
  | _ => false
  end.

(** A record the loop passes over without counting anything: the field is
    missing, the string does not decode, or the collection is not iterable. *)
Definition skipped_record {RT : PyRuntime} (test : pyval) : bool :=
  match py_getitem test "question_details" with
  | Raise _ => true
  | Ok (PStr s) =>
      match json_loads s with
      | Ok decoded => not_iterable decoded
      | Raise (JSONDecodeError _) => true
      | Raise e => is_TypeError_or_KeyError e
      end
  | Ok questions => not_iterable questions
  end.

(** The keys of a mapping after an access to [k]. *)
Fixpoint add_key (k : string) (l : list string) : list string :=
  match l with
  | [] => [k]
  | k' :: l' => if String.eqb k k' then l else k' :: add_key k l'
  end.

Definition mem (k : string) (l : list string) : bool :=
  existsb (String.eqb k) l.

(** An emitted weakness and the accumulator entry it was built from. *)
Definition emitted_from (kc : string * counts) (w : SubtopicWeakness) : Prop :=
  split " | " (fst kc) = [subtopic w; section w]
  /\ error_rate w = compute_error_rate (snd kc)
  /\ total_questions w = total (snd kc)
  /\ correct_answers w = correct (snd kc)
  /\ incorrect_answers w = incorrect (snd kc).

(** [x] occurs in [l] at some position before an occurrence of [y]. *)
Definition before {A : Type} (l : list A) (x y : A) : Prop :=
  exists l1 l2 l3, l = (l1 ++ x :: l2 ++ y :: l3)%list.

(** The entry of [k] in the mapping, or the factory's value. *)
Definition get_counts (k : string) (m : stats_map) : counts :=
  match assoc_lookup k m with
  | Some c => c
  | None => zero_counts
  end.

(** The invariant of an accumulator entry. *)
Definition counts_ok (c : counts) : Prop :=
  (1 <= total c /\ correct c + incorrect c = total c
   /\ 0 <= correct c /\ 0 <= incorrect c)%Z.

(** Whether a pass over a question collection ends without an exception
    that leaves the inner [try]: every item drawn is an object, or the
    collection cannot be iterated (a [TypeError], which is caught). *)
Definition items_pass (questions : pyval) : bool :=
  match py_iter questions with
  | Ok items => forallb is_dict items
  | Raise e => is_TypeError_or_KeyError e
  end.

(** Whether a test record lets the loop go on to the next record. *)
Definition record_passes {RT : PyRuntime} (test : pyval) : bool :=
  match py_getitem test "question_details" with
  | Raise e => is_TypeError_or_KeyError e
  | Ok (PStr s) =>
      match json_loads s with
      | Ok decoded => items_pass decoded
      | Raise (JSONDecodeError _) => true
      | Raise e => is_TypeError_or_KeyError e
      end
  | Ok questions => items_pass questions
  end.

(** A key that line 132 unpacks into a subtopic and a section. *)
Definition splits_in_two (k : string) : bool :=
  Nat.eqb (List.length (split " | " k)) 2.

(** [sep in s]: some suffix of [s] starts with [sep]. *)
Fixpoint contains (sep s : string) : bool :=
  is_prefix sep s
  || match s with
     | EmptyString => false
     | String _ s' => contains sep s'
     end.

(** The weakness built from an entry whose key splits in two. *)
Definition emit_weakness (kc : string * counts) : SubtopicWeakness :=
  {| subtopic := nth 0 (split " | " (fst kc)) EmptyString;
     section := nth 1 (split " | " (fst kc)) EmptyString;
     error_rate := compute_error_rate (snd kc);
     total_questions := total (snd kc);
     correct_answers := correct (snd kc);
     incorrect_answers := incorrect (snd kc) |}.

(** No occurrence of [sep] in [pre ++ s] starts inside [pre]. *)
Fixpoint no_start (sep pre s : string) : bool :=
  match pre with
  | EmptyString => true
  | String _ pre' => negb (is_prefix sep (pre ++ s)) && no_start sep pre' s
  end.

(** A weakness with its three counts doubled. *)
Definition double_counts (c : counts) : counts :=
  {| correct := 2 * correct c; incorrect := 2 * incorrect c; total := 2 * total c |}.

Definition double_weakness (w : SubtopicWeakness) : SubtopicWeakness :=
  {| subtopic := subtopic w;
     section := section w;
     error_rate := error_rate w;
     total_questions := 2 * total_questions w;
     correct_answers := 2 * correct_answers w;
     incorrect_answers := 2 * incorrect_answers w |}.

(** A runtime for the closed examples.  Its [json.loads] is Python's
    restricted to strings that are not JSON text: it rejects them with the
    message Python gives when no value starts the text.  Its [str()] is not
    consulted: the subtopics and sections of the examples are strings. *)
Definition sample_runtime : PyRuntime := {|
  json_loads := fun _ =>
    Raise (JSONDecodeError "Expecting value: line 1 column 1 (char 0)");
  py_repr := fun _ => EmptyString
|}.

(** Rows and questions for the closed examples. *)
Definition question (s c : string) (b : bool) : pyval :=
  PDict [("subtopic", PStr s); ("section", PStr c); ("isCorrect", PBool b)].

Definition test_record (question_details : pyval) : pyval :=
  PDict [("user_id", PStr "u1");
         ("test_type", PStr "GMAT Onboarding Test");
         ("question_details", question_details)].

(** Two tests of one user: three groups, two of them with the same error
    rate. *)
Definition sample_tests : list pyval :=
  [test_record (PList [question "Algebra" "Math" true;
                       question "Algebra" "Math" false;
                       question "Geometry" "Math" false]);
   test_record (PList [question "Algebra" "Math" false;
                       question "Reading" "Verbal" false])].

Definition sample_geometry : SubtopicWeakness :=
  {| subtopic := "Geometry"; section := "Math"; error_rate := 100;
     total_questions := 1; correct_answers := 0; incorrect_answers := 1 |}.

Definition sample_reading : SubtopicWeakness :=
  {| subtopic := "Reading"; section := "Verbal"; error_rate := 100;
     total_questions := 1; correct_answers := 0; incorrect_answers := 1 |}.

Definition sample_algebra : SubtopicWeakness :=
  {| subtopic := "Algebra"; section := "Math";
     error_rate := 2345624805922133 # 35184372088832;
     total_questions := 3; correct_answers := 1; incorrect_answers := 2 |}.

Definition sample_body : UserWeaknessResponse :=
  {| user_id := "u1";
     weaknesses := [sample_geometry; sample_reading; sample_algebra];
     total_areas_analyzed := 3 |}.

(** * Properties *)

(** ** Rounding to binary64 *)

Section Binary64Facts.

Local Open Scope Q_scope.

Lemma round_half_even_comp (x y : Q) :
  x == y -> round_half_even x = round_half_even y.
Proof.
  intros H. unfold round_half_even. rewrite (Qfloor_comp _ _ H).
  now rewrite H.
Qed.

Lemma round_half_even_cases (x : Q) :
  (round_half_even x = Qfloor x /\ x - inject_Z (Qfloor x) <= 1 # 2)
  \/ (round_half_even x = (Qfloor x + 1)%Z /\ 1 # 2 <= x - inject_Z (Qfloor x)).
Proof.
  unfold round_half_even.
  destruct (Qcompare_spec (x - inject_Z (Qfloor x)) (1 # 2)) as [H|H|H].
  - destruct (Z.even (Qfloor x)); [left | right]; split; auto; rewrite H; apply Qle_refl.
  - left. split; auto. now apply Qlt_le_weak.
  - right. split; auto. now apply Qlt_le_weak.
Qed.

Lemma round_half_even_error (x : Q) :
  Qabs (inject_Z (round_half_even x) - x) <= 1 # 2.
Proof.
  pose proof (Qfloor_le x) as Hlo. pose proof (Qlt_floor x) as Hhi.
  rewrite inject_Z_plus in Hhi. change (inject_Z 1) with 1 in Hhi.
  apply Qabs_Qle_condition.
  destruct (round_half_even_cases x) as [[-> H]|[-> H]].
  - split; lra.
  - rewrite inject_Z_plus. change (inject_Z 1) with 1. split; lra.
Qed.

Lemma round_half_even_le (x : Q) (k : Z) :
  x <= inject_Z k -> (round_half_even x <= k)%Z.
Proof.
  intros H. pose proof (Qfloor_le x) as Hlo.
  assert (Hf : (Qfloor x <= k)%Z).
  { rewrite <- (Qfloor_Z k). now apply Qfloor_resp_le. }
  destruct (round_half_even_cases x) as [[-> _]|[-> Hr]]; [exact Hf|].
  assert (Hlt : inject_Z (Qfloor x) < inject_Z k) by lra.
  rewrite <- Zlt_Qlt in Hlt. lia.
Qed.

Lemma round_half_even_ge (x : Q) (k : Z) :
  inject_Z k <= x -> (k <= round_half_even x)%Z.
Proof.
  intros H.
  assert (Hf : (k <= Qfloor x)%Z).
  { rewrite <- (Qfloor_Z k). now apply Qfloor_resp_le. }
  destruct (round_half_even_cases x) as [[-> _]|[-> _]]; lia.
Qed.

Lemma round_half_even_mono (x y : Q) :
  x <= y -> (round_half_even x <= round_half_even y)%Z.
Proof.
  intros H. pose proof (Qfloor_resp_le _ _ H) as Hf.
  destruct (Z.eq_dec (Qfloor x) (Qfloor y)) as [E|E].
  - unfold round_half_even. rewrite <- E.
    destruct (Qcompare_spec (x - inject_Z (Qfloor x)) (1 # 2)) as [Hx|Hx|Hx];
    destruct (Qcompare_spec (y - inject_Z (Qfloor x)) (1 # 2)) as [Hy|Hy|Hy];
      try lia; try (destruct (Z.even (Qfloor x)); lia); exfalso; lra.
  - assert (Hlt : (Qfloor x + 1 <= Qfloor y)%Z) by lia.
    destruct (round_half_even_cases x) as [[-> _]|[-> _]];
    destruct (round_half_even_cases y) as [[-> _]|[-> _]]; lia.
Qed.

Lemma pow2_pos (e : Z) : 0 < 2 ^ e.
Proof. apply Qpower_0_lt. reflexivity. Qed.

Lemma pow2_add (a b : Z) : 2 ^ (a + b) == 2 ^ a * 2 ^ b.
Proof. apply Qpower_plus. discriminate. Qed.

Lemma pow2_lt (a b : Z) : (a < b)%Z -> 2 ^ a < 2 ^ b.
Proof. intros H. apply Qpower_lt_compat_l; [exact H | reflexivity]. Qed.

Lemma pow2_le (a b : Z) : (a <= b)%Z -> 2 ^ a <= 2 ^ b.
Proof. intros H. apply Qpower_le_compat_l; [exact H | discriminate]. Qed.

Lemma pow2_lt_inv (a b : Z) : 2 ^ a < 2 ^ b -> (a < b)%Z.
Proof. intros H. apply (Qpower_lt_compat_l_inv 2); [exact H | reflexivity]. Qed.

Lemma pow2_inject (a : Z) : (0 <= a)%Z -> inject_Z (2 ^ a) == 2 ^ a.
Proof. intros H. now rewrite Zpower_Qpower. Qed.

Lemma floor_log2_spec (q : Q) :
  0 < q -> 2 ^ floor_log2 q <= q /\ q < 2 ^ (floor_log2 q + 1).
Proof.
  intros Hq. destruct q as [n d].
  assert (Hn : (0 < n)%Z).
  { unfold Qlt in Hq. simpl in Hq. lia. }
  unfold floor_log2. cbn [Qnum Qden].
  set (a := Z.log2 n). set (b := Z.log2 (Z.pos d)).
  destruct (Z.log2_spec n Hn) as [Ha1 Ha2]. fold a in Ha1, Ha2.
  destruct (Z.log2_spec (Z.pos d) (Pos2Z.is_pos d)) as [Hb1 Hb2]. fold b in Hb1, Hb2.
  assert (Ha0 : (0 <= a)%Z) by apply Z.log2_nonneg.
  assert (Hb0 : (0 <= b)%Z) by apply Z.log2_nonneg.
  assert (Hq' : n # d == inject_Z n / inject_Z (Z.pos d)) by apply Qmake_Qdiv.
  assert (Hd : 0 < inject_Z (Z.pos d)) by (unfold Qlt; simpl; lia).
  rewrite Zle_Qle, pow2_inject in Ha1, Hb1 by lia.
  rewrite Zlt_Qlt, <- Z.add_1_r, pow2_inject in Ha2, Hb2 by lia.
  pose proof (pow2_pos a) as Pa. pose proof (pow2_pos b) as Pb.
  pose proof (pow2_pos (a - b)) as Pk.
  assert (Hk : 2 ^ (a - b) * 2 ^ b == 2 ^ a).
  { rewrite <- pow2_add. now replace (a - b + b)%Z with a by lia. }
  assert (Hk1 : 2 ^ (a - b + 1) == 2 * 2 ^ (a - b)).
  { rewrite pow2_add. change (2 ^ 1) with 2. ring. }
  assert (Hkm : 2 * 2 ^ (a - b - 1) == 2 ^ (a - b)).
  { replace (a - b)%Z with ((a - b - 1) + 1)%Z at 2 by lia.
    rewrite pow2_add. change (2 ^ 1) with 2. ring. }
  rewrite pow2_add in Ha2, Hb2. change (2 ^ 1) with 2 in Ha2, Hb2.
  set (N := inject_Z n) in *. set (D := inject_Z (Z.pos d)) in *.
  assert (HqD : (n # d) * D == N).
  { rewrite Hq'. field. intros E. rewrite E in Hd. discriminate. }
  set (x := n # d) in *.
  assert (Hup : x < 2 * 2 ^ (a - b)).
  { apply (Qmult_lt_r _ _ D Hd). rewrite HqD.
    apply Qlt_le_trans with (2 ^ a * 2); [exact Ha2|].
    rewrite <- Hk.
    setoid_replace (2 ^ (a - b) * 2 ^ b * 2) with (2 * 2 ^ (a - b) * 2 ^ b) by ring.
    apply Qmult_le_l; [lra | exact Hb1]. }
  assert (Hlow : 2 ^ (a - b - 1) < x).
  { apply (Qmult_lt_r _ _ D Hd). rewrite HqD.
    apply Qlt_le_trans with (2 ^ a); [|exact Ha1].
    rewrite <- Hk, <- Hkm.
    setoid_replace (2 * 2 ^ (a - b - 1) * 2 ^ b) with (2 ^ (a - b - 1) * (2 ^ b * 2)) by ring.
    apply Qmult_lt_l; [apply pow2_pos | exact Hb2]. }
  destruct (Qle_bool (2 ^ (a - b)) x) eqn:E.
  - apply Qle_bool_iff in E. split; [exact E|]. now rewrite Hk1.
  - assert (E' : x < 2 ^ (a - b)).
    { apply Qnot_le_lt. intros H. apply Qle_bool_iff in H. congruence. }
    split; [now apply Qlt_le_weak|].
    now replace (a - b - 1 + 1)%Z with (a - b)%Z by lia.
Qed.

Lemma floor_log2_unique (q : Q) (k : Z) :
  2 ^ k <= q -> q < 2 ^ (k + 1) -> floor_log2 q = k.
Proof.
  intros H1 H2.
  assert (Hq : 0 < q) by (apply Qlt_le_trans with (2 ^ k); [apply pow2_pos | exact H1]).
  destruct (floor_log2_spec q Hq) as [S1 S2].
  assert (A : (k < floor_log2 q + 1)%Z).
  { apply pow2_lt_inv. now apply Qle_lt_trans with q. }
  assert (B : (floor_log2 q < k + 1)%Z).
  { apply pow2_lt_inv. now apply Qle_lt_trans with q. }
  lia.
Qed.

Lemma floor_log2_comp (x y : Q) :
  0 < x -> x == y -> floor_log2 x = floor_log2 y.
Proof.
  intros Hx E. destruct (floor_log2_spec x Hx) as [S1 S2].
  symmetry. apply floor_log2_unique; now rewrite <- E.
Qed.

Lemma floor_log2_mono (x y : Q) :
  0 < x -> x <= y -> (floor_log2 x <= floor_log2 y)%Z.
Proof.
  intros Hx Hxy.
  assert (Hy : 0 < y) by now apply Qlt_le_trans with x.
  destruct (floor_log2_spec x Hx) as [X1 _].
  destruct (floor_log2_spec y Hy) as [_ Y2].
  assert (A : (floor_log2 x < floor_log2 y + 1)%Z).
  { apply pow2_lt_inv. apply Qle_lt_trans with x; [exact X1|].
    now apply Qle_lt_trans with y. }
  lia.
Qed.

Lemma floor_log2_lt (q : Q) (k : Z) :
  0 < q -> q < 2 ^ k -> (floor_log2 q < k)%Z.
Proof.
  intros Hq H. destruct (floor_log2_spec q Hq) as [S1 _].
  apply pow2_lt_inv. now apply Qle_lt_trans with q.
Qed.

Lemma round_binary64_pos (q : Q) :
  0 < q ->
  round_binary64 q
  = inject_Z (round_half_even (q / 2 ^ ulp_exponent q)) * 2 ^ ulp_exponent q.
Proof.
  intros H. unfold round_binary64.
  now rewrite (proj1 (Qgt_alt q 0) H).
Qed.

Lemma round_binary64_zero (q : Q) : q == 0 -> round_binary64 q = 0.
Proof.
  intros H. unfold round_binary64. now rewrite (proj1 (Qeq_alt q 0) H).
Qed.

Lemma ulp_exponent_comp (x y : Q) :
  0 < x -> x == y -> ulp_exponent x = ulp_exponent y.
Proof.
  intros Hx E. unfold ulp_exponent. now rewrite (floor_log2_comp x y Hx E).
Qed.

Lemma round_binary64_pos_comp (x y : Q) :
  0 < x -> x == y -> round_binary64 x == round_binary64 y.
Proof.
  intros Hx E. assert (Hy : 0 < y) by now rewrite <- E.
  rewrite (round_binary64_pos x Hx), (round_binary64_pos y Hy).
  rewrite <- (ulp_exponent_comp x y Hx E).
  rewrite (round_half_even_comp (x / 2 ^ ulp_exponent x) (y / 2 ^ ulp_exponent x)).
  - reflexivity.
  - unfold Qdiv. apply Qmult_comp; [exact E | reflexivity].
Qed.

Lemma round_binary64_comp (x y : Q) :
  x == y -> round_binary64 x == round_binary64 y.
Proof.
  intros E. destruct (Qcompare_spec x 0) as [H|H|H].
  - rewrite (round_binary64_zero x H), (round_binary64_zero y); [reflexivity|].
    now rewrite <- E.
  - assert (Hx : 0 < - x) by lra. assert (Ey : - x == - y) by now rewrite E.
    assert (Hy : y < 0) by now rewrite <- E.
    unfold round_binary64.
    rewrite (proj1 (Qlt_alt x 0) H), (proj1 (Qlt_alt y 0) Hy).
    rewrite <- (ulp_exponent_comp (- x) (- y) Hx Ey).
    rewrite (round_half_even_comp (- x / 2 ^ ulp_exponent (- x))
               (- y / 2 ^ ulp_exponent (- x))).
    + reflexivity.
    + unfold Qdiv. apply Qmult_comp; [exact Ey | reflexivity].
  - now apply round_binary64_pos_comp.
Qed.

Lemma div_pow2_mul (q : Q) (e : Z) : q / 2 ^ e * 2 ^ e == q.
Proof.
  field. intros E. pose proof (pow2_pos e) as P. rewrite E in P. discriminate.
Qed.

Lemma round_binary64_nonneg (q : Q) : 0 <= q -> 0 <= round_binary64 q.
Proof.
  intros H. destruct (Qle_lt_or_eq _ _ H) as [Hq|Hq].
  - rewrite (round_binary64_pos q Hq).
    pose proof (pow2_pos (ulp_exponent q)) as P.
    apply Qmult_le_0_compat; [|lra].
    change 0 with (inject_Z 0). rewrite <- Zle_Qle.
    apply round_half_even_ge. change (inject_Z 0) with 0.
    apply Qle_shift_div_l; [exact P | lra].
  - rewrite (round_binary64_zero q); [apply Qle_refl | now symmetry].
Qed.

(** The rounding error is at most half a unit in the last place. *)
Lemma round_binary64_error (q : Q) :
  0 < q -> Qabs (round_binary64 q - q) <= 2 ^ (ulp_exponent q - 1).
Proof.
  intros Hq. rewrite (round_binary64_pos q Hq).
  set (e := ulp_exponent q). pose proof (pow2_pos e) as P.
  pose proof (round_half_even_error (q / 2 ^ e)) as Herr.
  set (m := inject_Z (round_half_even (q / 2 ^ e))) in *.
  assert (E : m * 2 ^ e - q == (m - q / 2 ^ e) * 2 ^ e).
  { rewrite <- (div_pow2_mul q e) at 1. ring. }
  rewrite E, Qabs_Qmult, (Qabs_pos (2 ^ e)) by lra.
  assert (Hhalf : 2 ^ (e - 1) == (1 # 2) * 2 ^ e).
  { replace e with ((e - 1) + 1)%Z at 2 by lia. rewrite pow2_add.
    change (2 ^ 1) with 2. field. }
  rewrite Hhalf. apply Qmult_le_compat_r; [exact Herr | lra].
Qed.

Lemma round_binary64_upper (q : Q) :
  0 < q -> round_binary64 q <= 2 ^ (ulp_exponent q + 53).
Proof.
  intros Hq. rewrite (round_binary64_pos q Hq).
  set (e := ulp_exponent q). pose proof (pow2_pos e) as P.
  destruct (floor_log2_spec q Hq) as [_ S2].
  assert (He : (floor_log2 q + 1 <= e + 53)%Z) by (unfold e, ulp_exponent; lia).
  assert (Hq53 : q <= 2 ^ 53 * 2 ^ e).
  { rewrite <- pow2_add. replace (53 + e)%Z with (e + 53)%Z by lia.
    apply Qlt_le_weak. apply Qlt_le_trans with (2 ^ (floor_log2 q + 1)); auto.
    now apply pow2_le. }
  rewrite Z.add_comm, pow2_add.
  apply Qmult_le_compat_r; [|lra].
  rewrite <- (pow2_inject 53) by lia. rewrite <- Zle_Qle.
  apply round_half_even_le. rewrite pow2_inject by lia.
  apply Qle_shift_div_r; [exact P | exact Hq53].
Qed.

Lemma round_binary64_lower (q : Q) :
  0 < q -> ulp_exponent q = (floor_log2 q - 52)%Z ->
  2 ^ (ulp_exponent q + 52) <= round_binary64 q.
Proof.
  intros Hq He. rewrite (round_binary64_pos q Hq).
  set (e := ulp_exponent q) in *. pose proof (pow2_pos e) as P.
  destruct (floor_log2_spec q Hq) as [S1 _].
  replace (floor_log2 q) with (52 + e)%Z in S1 by lia.
  rewrite pow2_add in S1.
  rewrite Z.add_comm, pow2_add.
  apply Qmult_le_compat_r; [|lra].
  rewrite <- (pow2_inject 52) by lia. rewrite <- Zle_Qle.
  apply round_half_even_ge. rewrite pow2_inject by lia.
  apply Qle_shift_div_l; [exact P | exact S1].
Qed.

(** Rounding is monotone. *)
Lemma round_binary64_mono (x y : Q) :
  0 <= x -> x <= y -> round_binary64 x <= round_binary64 y.
Proof.
  intros Hx Hxy. destruct (Qle_lt_or_eq _ _ Hx) as [Hx0|Hx0].
  - assert (Hy0 : 0 < y) by lra.
    pose proof (floor_log2_mono x y Hx0 Hxy) as Hf.
    destruct (Z.eq_dec (ulp_exponent x) (ulp_exponent y)) as [E|E].
    + rewrite (round_binary64_pos x Hx0), (round_binary64_pos y Hy0), <- E.
      pose proof (pow2_pos (ulp_exponent x)) as P.
      apply Qmult_le_compat_r; [|lra].
      rewrite <- Zle_Qle. apply round_half_even_mono.
      apply Qmult_le_compat_r; [exact Hxy|].
      apply Qlt_le_weak, Qinv_lt_0_compat, P.
    + assert (Hlt : (ulp_exponent x < ulp_exponent y)%Z)
        by (unfold ulp_exponent in *; lia).
      assert (Hey : ulp_exponent y = (floor_log2 y - 52)%Z)
        by (unfold ulp_exponent in *; lia).
      apply Qle_trans with (2 ^ (ulp_exponent x + 53));
        [now apply round_binary64_upper|].
      apply Qle_trans with (2 ^ (ulp_exponent y + 52));
        [apply pow2_le; lia | now apply round_binary64_lower].
  - rewrite (round_binary64_zero x) by now symmetry.
    apply round_binary64_nonneg. lra.
Qed.

Lemma round_binary64_error_below (q : Q) (k : Z) :
  0 <= q -> q < 2 ^ k -> (-1021 <= k)%Z ->
  Qabs (round_binary64 q - q) <= 2 ^ (k - 54).
Proof.
  intros H0 Hk Hmin. destruct (Qle_lt_or_eq _ _ H0) as [Hq|Hq].
  - apply Qle_trans with (2 ^ (ulp_exponent q - 1));
      [now apply round_binary64_error|].
    apply pow2_le. pose proof (floor_log2_lt q k Hq Hk).
    unfold ulp_exponent. lia.
  - rewrite (round_binary64_zero q) by now symmetry.
    setoid_replace (0 - q) with 0 by (rewrite <- Hq; ring).
    apply Qlt_le_weak, pow2_pos.
Qed.

Lemma round_binary64_1 : round_binary64 1 == 1.
Proof. vm_compute. reflexivity. Qed.

Lemma round_binary64_100 : round_binary64 100 == 100.
Proof. vm_compute. reflexivity. Qed.

Lemma quotient_unit (i t : Z) :
  (0 <= i <= t)%Z -> (1 <= t)%Z ->
  0 <= inject_Z i / inject_Z t /\ inject_Z i / inject_Z t <= 1.
Proof.
  intros Hi Ht.
  assert (HT : 0 < inject_Z t) by (change 0 with (inject_Z 0); rewrite <- Zlt_Qlt; lia).
  assert (HI : 0 <= inject_Z i) by (change 0 with (inject_Z 0); rewrite <- Zle_Qle; lia).
  assert (HIT : inject_Z i <= inject_Z t) by (rewrite <- Zle_Qle; lia).
  split.
  - apply Qle_shift_div_l; [exact HT | lra].
  - apply Qle_shift_div_r; [exact HT | lra].
Qed.

(** The float [(i / t) * 100] for [0 <= i <= t]: between 0 and 100, and
    within [2^-46] of the exact value. *)
Lemma float_rate_bounds (i t : Z) :
  (0 <= i <= t)%Z -> (1 <= t)%Z ->
  0 <= float_mul (true_divide i t) 100
  /\ float_mul (true_divide i t) 100 <= 100
  /\ Qabs (float_mul (true_divide i t) 100 - 100 * inject_Z i / inject_Z t)
     <= 2 ^ (-46).
Proof.
  intros Hi Ht. destruct (quotient_unit i t Hi Ht) as [Hx0 Hx1].
  unfold float_mul, true_divide.
  set (x := inject_Z i / inject_Z t) in *.
  assert (Hr0 : 0 <= round_binary64 x) by now apply round_binary64_nonneg.
  assert (Hr1 : round_binary64 x <= 1).
  { apply Qle_trans with (round_binary64 1); [now apply round_binary64_mono|].
    rewrite round_binary64_1. apply Qle_refl. }
  assert (He1 : Qabs (round_binary64 x - x) <= 2 ^ (-54)).
  { destruct (Qle_lt_or_eq _ _ Hx1) as [Hlt|Heq].
    - apply (round_binary64_error_below x 0); [exact Hx0 | exact Hlt | lia].
    - setoid_replace (round_binary64 x - x) with 0.
      + discriminate.
      + rewrite (round_binary64_comp x 1 Heq), round_binary64_1, Heq. ring. }
  set (r := round_binary64 x) in *.
  assert (Hy0 : 0 <= r * 100) by lra.
  assert (Hy1 : r * 100 <= 100) by lra.
  assert (Hs0 : 0 <= round_binary64 (r * 100)) by now apply round_binary64_nonneg.
  assert (Hs1 : round_binary64 (r * 100) <= 100).
  { apply Qle_trans with (round_binary64 100); [now apply round_binary64_mono|].
    rewrite round_binary64_100. apply Qle_refl. }
  assert (He2 : Qabs (round_binary64 (r * 100) - r * 100) <= 2 ^ (-47)).
  { apply (round_binary64_error_below (r * 100) 7); [exact Hy0 | | lia].
    apply Qle_lt_trans with 100; [exact Hy1 | reflexivity]. }
  split; [exact Hs0|]. split; [exact Hs1|].
  set (s := round_binary64 (r * 100)) in *.
  assert (C54 : 2 ^ (-54) == 1 # 18014398509481984) by reflexivity.
  assert (C47 : 2 ^ (-47) == 1 # 140737488355328) by reflexivity.
  assert (C46 : 2 ^ (-46) == 1 # 70368744177664) by reflexivity.
  rewrite C54 in He1. rewrite C47 in He2. rewrite C46.
  apply Qabs_Qle_condition in He1. apply Qabs_Qle_condition in He2.
  apply Qabs_Qle_condition.
  setoid_replace (100 * inject_Z i / inject_Z t) with (100 * x)
    by (unfold x; field; intros E;
        assert (HT : 0 < inject_Z t)
          by (change 0 with (inject_Z 0); rewrite <- Zlt_Qlt; lia);
        rewrite E in HT; discriminate).
  split; lra.
Qed.

Lemma quotient_le (i t a : Z) (b : positive) :
  (1 <= t)%Z -> (i * Z.pos b <= a * t)%Z -> inject_Z i / inject_Z t <= a # b.
Proof.
  intros Ht H.
  assert (HT : 0 < inject_Z t) by (change 0 with (inject_Z 0); rewrite <- Zlt_Qlt; lia).
  apply Qle_shift_div_r; [exact HT|].
  unfold Qle, Qmult, inject_Z. cbn [Qnum Qden]. rewrite Pos.mul_1_r. lia.
Qed.

Lemma quotient_ge (i t a : Z) (b : positive) :
  (1 <= t)%Z -> (a * t <= i * Z.pos b)%Z -> a # b <= inject_Z i / inject_Z t.
Proof.
  intros Ht H.
  assert (HT : 0 < inject_Z t) by (change 0 with (inject_Z 0); rewrite <- Zlt_Qlt; lia).
  apply Qle_shift_div_l; [exact HT|].
  unfold Qle, Qmult, inject_Z. cbn [Qnum Qden]. rewrite Pos.mul_1_r. lia.
Qed.

Lemma round_below_1 :
  round_binary64 (9007199254740991 # 9007199254740992)
  <= 9007199254740991 # 9007199254740992.
Proof. vm_compute. discriminate. Qed.

Lemma round_below_100 :
  round_binary64 ((9007199254740991 # 9007199254740992) * 100) < 100.
Proof. vm_compute. reflexivity. Qed.

Lemma round_above_0 : 1 # 9007199254740992 <= round_binary64 (1 # 9007199254740992).
Proof. vm_compute. discriminate. Qed.

Lemma round_above_0_100 : 0 < round_binary64 ((1 # 9007199254740992) * 100).
Proof. vm_compute. reflexivity. Qed.

Lemma float_rate_extremes (i t : Z) :
  (0 <= i <= t)%Z -> (1 <= t <= 2 ^ 53)%Z ->
  (float_mul (true_divide i t) 100 == 100 <-> i = t)
  /\ (float_mul (true_divide i t) 100 == 0 <-> i = 0%Z).
Proof.
  intros Hi Ht. change (2 ^ 53)%Z with 9007199254740992%Z in Ht.
  assert (Hx : 0 <= inject_Z i / inject_Z t /\ inject_Z i / inject_Z t <= 1)
    by (apply quotient_unit; lia).
  destruct Hx as [Hx0 Hx1].
  unfold float_mul, true_divide. split; split.
  - intros H. destruct (Z.eq_dec i t) as [E|E]; [exact E | exfalso].
    assert (Hle : inject_Z i / inject_Z t <= 9007199254740991 # 9007199254740992)
      by (apply quotient_le; lia).
    pose proof (round_binary64_mono _ _ Hx0 Hle) as Hr.
    pose proof round_below_1 as B1.
    pose proof (round_binary64_nonneg _ Hx0) as Hr0.
    set (r := round_binary64 (inject_Z i / inject_Z t)) in *.
    assert (Hy : r * 100 <= (9007199254740991 # 9007199254740992) * 100) by lra.
    assert (Hy0 : 0 <= r * 100) by lra.
    pose proof (round_binary64_mono _ _ Hy0 Hy) as Hs.
    pose proof round_below_100 as B2. lra.
  - intros ->.
    assert (E1 : inject_Z t / inject_Z t == 1).
    { field. intros E. assert (HT : 0 < inject_Z t)
        by (change 0 with (inject_Z 0); rewrite <- Zlt_Qlt; lia).
      rewrite E in HT. discriminate. }
    rewrite (round_binary64_comp
               (round_binary64 (inject_Z t / inject_Z t) * 100) 100).
    + apply round_binary64_100.
    + rewrite (round_binary64_comp _ _ E1), round_binary64_1. reflexivity.
  - intros H. destruct (Z.eq_dec i 0) as [E|E]; [exact E | exfalso].
    assert (Hge : 1 # 9007199254740992 <= inject_Z i / inject_Z t)
      by (apply quotient_ge; lia).
    assert (Hp : 0 <= 1 # 9007199254740992) by discriminate.
    pose proof (round_binary64_mono _ _ Hp Hge) as Hr.
    pose proof round_above_0 as B1.
    set (r := round_binary64 (inject_Z i / inject_Z t)) in *.
    assert (Hy : (1 # 9007199254740992) * 100 <= r * 100) by lra.
    assert (Hy0 : 0 <= (1 # 9007199254740992) * 100) by discriminate.
    pose proof (round_binary64_mono _ _ Hy0 Hy) as Hs.
    pose proof round_above_0_100 as B2. lra.
  - intros ->.
    assert (E0 : inject_Z 0 / inject_Z t == 0) by (unfold Qdiv; ring).
    rewrite (round_binary64_zero _ E0).
    rewrite (round_binary64_zero (0 * 100)); [reflexivity | ring].
Qed.

Lemma float_rate_double (i t : Z) :
  (1 <= t)%Z ->
  float_mul (true_divide (2 * i) (2 * t)) 100 == float_mul (true_divide i t) 100.
Proof.
  intros Ht. unfold float_mul, true_divide.
  apply round_binary64_comp. apply Qmult_comp; [|reflexivity].
  apply round_binary64_comp. rewrite !inject_Z_mult. field.
  intros E. assert (HT : 0 < inject_Z t)
    by (change 0 with (inject_Z 0); rewrite <- Zlt_Qlt; lia).
  rewrite E in HT. discriminate.
Qed.

(** The rational model of the two float operations gives the values the
    primitive binary64 floats give, on every total up to 100. *)
Lemma agrees_with_primitive_floats :
  forallb (fun p => agrees_with_primitive (fst p) (snd p)) (rate_inputs 100) = true.
Proof. vm_compute. reflexivity. Qed.

(** Two distinct exact rates that round to one float. *)
Lemma rounding_creates_ties :
  float_mul (true_divide 94906269 94906270) 100
  == float_mul (true_divide 94906270 94906271) 100
  /\ agrees_with_primitive 94906269 94906270 = true
  /\ agrees_with_primitive 94906270 94906271 = true.
Proof. vm_compute. repeat split. Qed.

(** Such groups tie in the sort and stay in the order of the mapping,
    whichever comes first, although the exact rate of the second is the
    greater one. *)
Lemma float_ties_keep_first_seen_order :
  let a := {| correct := 1; incorrect := 94906269; total := 94906270 |} in
  let b := {| correct := 1; incorrect := 94906270; total := 94906271 |} in
  (inject_Z (incorrect a) / inject_Z (total a)
   < inject_Z (incorrect b) / inject_Z (total b))
  /\ match build_weaknesses (with_error_rates [("a | s", a); ("b | s", b)]) with
     | Ok ws => map subtopic (sort_desc ws)
     | Raise _ => []
     end = ["a"; "b"]%string
  /\ match build_weaknesses (with_error_rates [("b | s", b); ("a | s", a)]) with
     | Ok ws => map subtopic (sort_desc ws)
     | Raise _ => []
     end = ["b"; "a"]%string.
Proof. vm_compute. repeat split. Qed.

(** Beyond [2^53] attempts a quotient below 1 can round to 1: a group with
    one correct answer among [2^54] has error rate 100. *)
Lemma rate_100_beyond_2_53 :
  compute_error_rate
    {| correct := 1; incorrect := 2 ^ 54 - 1; total := 2 ^ 54 |} == 100.
Proof. vm_compute. reflexivity. Qed.

End Binary64Facts.

(** ** The sort *)

Lemma Qle_bool_false_flip (x y : Q) :
  Qle_bool x y = false -> Qle_bool y x = true.
Proof.
  intros H. apply Qle_bool_iff. apply Qlt_le_weak. apply Qnot_le_lt.
  intros Hle. apply Qle_bool_iff in Hle. congruence.
Qed.

Lemma insert_desc_In (x y : SubtopicWeakness) (l : list SubtopicWeakness) :
  In y (insert_desc x l) <-> y = x \/ In y l.
Proof.
  induction l as [|z l IH]; simpl.
  - intuition.
  - destruct (Qle_bool (error_rate z) (error_rate x)); simpl.
    + intuition.
    + rewrite IH. intuition.
Qed.

Lemma sort_desc_In (y : SubtopicWeakness) (l : list SubtopicWeakness) :
  In y (sort_desc l) <-> In y l.
Proof.
  induction l as [|x l IH]; simpl.
  - tauto.
  - rewrite insert_desc_In, IH. intuition.
Qed.

Lemma insert_desc_length (x : SubtopicWeakness) (l : list SubtopicWeakness) :
  List.length (insert_desc x l) = S (List.length l).
Proof.
  induction l as [|z l IH]; simpl; auto.
  destruct (Qle_bool _ _); simpl; auto.
Qed.

Lemma sort_desc_length (l : list SubtopicWeakness) :
  List.length (sort_desc l) = List.length l.
Proof.
  induction l as [|x l IH]; simpl; auto.
  now rewrite insert_desc_length, IH.
Qed.

Lemma insert_desc_HdRel (a x : SubtopicWeakness) (l : list SubtopicWeakness) :
  rate_ge a x -> HdRel rate_ge a l -> HdRel rate_ge a (insert_desc x l).
Proof.
  intros Hax Hal. destruct l as [|z l]; simpl.
  - now constructor.
  - destruct (Qle_bool _ _); constructor; auto.
    now inversion Hal.
Qed.

Lemma insert_desc_Sorted (x : SubtopicWeakness) (l : list SubtopicWeakness) :
  Sorted rate_ge l -> Sorted rate_ge (insert_desc x l).
Proof.
  induction l as [|z l IH]; simpl; intros Hs.
  - repeat constructor.
  - destruct (Qle_bool (error_rate z) (error_rate x)) eqn:E.
    + constructor; auto. constructor. now apply Qle_bool_iff.
    + inversion Hs; subst. constructor; auto.
      apply insert_desc_HdRel; auto.
      unfold rate_ge. apply Qle_bool_iff. now apply Qle_bool_false_flip.
Qed.

Lemma sort_desc_Sorted (l : list SubtopicWeakness) : Sorted rate_ge (sort_desc l).
Proof.
  induction l as [|x l IH]; simpl.
  - constructor.
  - now apply insert_desc_Sorted.
Qed.

Lemma Sorted_adjacent (l : list SubtopicWeakness) :
  Sorted rate_ge l ->
  forall i w1 w2,
    nth_error l i = Some w1 -> nth_error l (S i) = Some w2 -> rate_ge w1 w2.
Proof.
  induction 1 as [|a l Hs IH Hhd]; intros i w1 w2 H1 H2.
  - destruct i; discriminate.
  - destruct i as [|i]; simpl in *.
    + injection H1 as <-. destruct l as [|b l]; [discriminate|].
      simpl in H2. injection H2 as <-. now inversion Hhd.
    + eapply IH; eauto.
Qed.

(** Stability: the entries of any one error rate come out of the sort in
    the order they went in. *)
Lemma insert_desc_stable (r : Q) (x : SubtopicWeakness) (l : list SubtopicWeakness) :
  filter (has_rate r) (insert_desc x l) = filter (has_rate r) (x :: l).
Proof.
  induction l as [|y l IH]; simpl; auto.
  destruct (Qle_bool (error_rate y) (error_rate x)) eqn:E; simpl; auto.
  simpl in IH. rewrite IH.
  destruct (has_rate r x) eqn:Hx; auto.
  destruct (has_rate r y) eqn:Hy; auto.
  exfalso. unfold has_rate in *.
  apply Qeq_bool_iff in Hx, Hy.
  assert (Hle : Qle_bool (error_rate y) (error_rate x) = true).
  { apply Qle_bool_iff. rewrite Hx, Hy. apply Qle_refl. }
  congruence.
Qed.

Lemma sort_desc_stable (r : Q) (l : list SubtopicWeakness) :
  filter (has_rate r) (sort_desc l) = filter (has_rate r) l.
Proof.
  induction l as [|x l IH]; simpl; auto.
  rewrite insert_desc_stable. simpl. now rewrite IH.
Qed.


Lemma insert_desc_Permutation (x : SubtopicWeakness) (l : list SubtopicWeakness) :
  Permutation (insert_desc x l) (x :: l).
Proof.
  induction l as [|y l IH]; simpl; auto.
  destruct (Qle_bool _ _); auto.
  rewrite IH. apply perm_swap.
Qed.

Lemma sort_desc_Permutation (l : list SubtopicWeakness) :
  Permutation (sort_desc l) l.
Proof.
  induction l as [|x l IH]; simpl; auto.
  rewrite insert_desc_Permutation. now constructor.
Qed.

(** ** The loops as a fold over the attempts *)

Section LoopFacts.

Context {RT : PyRuntime}.

Lemma py_get_dict (d : attempt) (k : string) (default : pyval) :
  py_get (PDict d) k default = Ok (attempt_get d k default).
Proof.
  unfold py_get, attempt_get. now destruct (assoc_lookup k d).
Qed.

Lemma py_get_not_dict (v : pyval) (k : string) (default : pyval) :
  is_dict v = false ->
  py_get v k default
  = Raise (AttributeError ("'" ++ type_name v ++ "' object has no attribute 'get'")).
Proof.
  destruct v; simpl; intros H; try reflexivity; discriminate.
Qed.

Lemma process_question_dict (d : attempt) (st : stats_map) :
  process_question (PDict d) st = (count_attempt st d, Ok tt).
Proof.
  unfold process_question, bind, lift.
  rewrite !py_get_dict.
  unfold count_attempt, attempt_key, attempt_correct.
  now destruct (truthy (attempt_get d "isCorrect" (PBool false))).
Qed.

Lemma process_question_not_dict (v : pyval) (st : stats_map) :
  is_dict v = false ->
  process_question v st
  = (st, Raise (AttributeError ("'" ++ type_name v ++ "' object has no attribute 'get'"))).
Proof.
  intros H. unfold process_question, bind, lift.
  now rewrite (py_get_not_dict v "subtopic" _ H).
Qed.

(** A pass over a list of items either counts every item, all of them
    objects, or stops at the first item that is not an object. *)
Lemma for_each_question_ok (items : list pyval) (st st' : stats_map) :
  for_each process_question items st = (st', Ok tt) ->
  forallb is_dict items = true
  /\ st' = fold_left count_attempt (flat_map dict_entries items) st.
Proof.
  revert st. induction items as [|v items IH]; intros st H.
  - simpl in H. unfold ret in H. injection H as <-. now split.
  - simpl in H. unfold bind in H.
    destruct (is_dict v) eqn:Hv.
    + destruct v; try discriminate.
      rewrite process_question_dict in H.
      apply IH in H. destruct H as [Hall ->]. simpl. now split.
    + rewrite (process_question_not_dict v st Hv) in H. discriminate.
Qed.

Lemma for_each_question_dicts (items : list pyval) (st : stats_map) :
  forallb is_dict items = true ->
  for_each process_question items st
  = (fold_left count_attempt (flat_map dict_entries items) st, Ok tt).
Proof.
  revert st. induction items as [|v items IH]; intros st H.
  - reflexivity.
  - simpl in H. apply andb_true_iff in H. destruct H as [Hv Hall].
    destruct v; try discriminate.
    simpl. unfold bind. rewrite process_question_dict.
    now rewrite IH.
Qed.

Lemma for_each_question_raises (items : list pyval) (st st' : stats_map) (e : exn) :
  for_each process_question items st = (st', Raise e) ->
  is_TypeError_or_KeyError e = false.
Proof.
  revert st. induction items as [|v items IH]; intros st H.
  - discriminate.
  - simpl in H. unfold bind in H.
    destruct (is_dict v) eqn:Hv.
    + destruct v; try discriminate.
      rewrite process_question_dict in H. eauto.
    + rewrite (process_question_not_dict v st Hv) in H.
      injection H as _ <-. reflexivity.
Qed.

Lemma process_questions_ok (questions : pyval) (st st' : stats_map) :
  process_questions questions st = (st', Ok tt) ->
  st' = fold_left count_attempt (attempts_in questions) st.
Proof.
  unfold process_questions, bind, lift. intros H.
  destruct questions; simpl in H; try discriminate.
  - (* a string: its characters are not objects *)
    apply for_each_question_ok in H. destruct H as [Hall ->].
    destruct s; [reflexivity | discriminate].
  - (* a list *)
    apply for_each_question_ok in H. now destruct H as [_ ->].
  - (* a dict: its keys are not objects *)
    apply for_each_question_ok in H. destruct H as [Hall ->].
    destruct d; [reflexivity | discriminate].
Qed.

(** The only [TypeError] of a pass over a question collection is raised
    before the first question is read. *)
Lemma process_questions_caught (questions : pyval) (st st' : stats_map) (e : exn) :
  process_questions questions st = (st', Raise e) ->
  is_TypeError_or_KeyError e = true ->
  st' = st /\ attempts_in questions = [].
Proof.
  unfold process_questions, bind, lift. intros H He.
  destruct questions; simpl in H;
    try (injection H as <- _; now split);
    apply for_each_question_raises in H; congruence.
Qed.

(** A test record that does not make the request fail adds exactly its
    attempts to the accumulator. *)
Lemma process_test_ok (test : pyval) (st st' : stats_map) :
  process_test test st = (st', Ok tt) ->
  st' = fold_left count_attempt (record_attempts test) st.
Proof.
  unfold process_test, try_except, record_attempts, record_questions, bind, lift.
  destruct (py_getitem test "question_details") as [questions|e] eqn:Hq.
  - assert (Hgen : forall v,
      match process_questions v st with
      | (st'0, Raise e) =>
          if is_TypeError_or_KeyError e then (st'0, Ok tt) else (st'0, Raise e)
      | r => r
      end = (st', Ok tt) ->
      st' = fold_left count_attempt (attempts_in v) st).
    { intros v H.
      destruct (process_questions v st) as [st1 [[]|e]] eqn:Hp.
      - injection H as <-. now apply process_questions_ok.
      - destruct (is_TypeError_or_KeyError e) eqn:He; [|discriminate].
        injection H as <-.
        destruct (process_questions_caught _ _ _ _ Hp He) as [-> ->].
        reflexivity. }
    destruct questions; try (apply Hgen).
    destruct (json_loads s) as [decoded|e] eqn:Hl.
    + apply Hgen.
    + destruct e; simpl; unfold ret, raise; intros H;
        try discriminate; now injection H as <-.
  - destruct (is_TypeError_or_KeyError e); intros H; [|discriminate].
    now injection H as <-.
Qed.

Lemma for_each_test_ok (tests : list pyval) (st st' : stats_map) :
  for_each process_test tests st = (st', Ok tt) ->
  st' = fold_left count_attempt (flat_map record_attempts tests) st.
Proof.
  revert st. induction tests as [|t tests IH]; intros st H.
  - simpl in H. unfold ret in H. now injection H as <-.
  - simpl in H. unfold bind in H.
    destruct (process_test t st) as [st1 [[]|e]] eqn:Ht; [|discriminate].
    apply process_test_ok in Ht. apply IH in H. subst.
    simpl. now rewrite fold_left_app.
Qed.

End LoopFacts.

(** ** The accumulator *)

Lemma update_item_twice (k : string) (f g : counts -> counts) (m : stats_map) :
  update_item k g (update_item k f m) = update_item k (fun c => g (f c)) m.
Proof.
  induction m as [|[k' c] m IH]; simpl.
  - now rewrite String.eqb_refl.
  - destruct (String.eqb k k') eqn:E; simpl; rewrite E; [reflexivity|].
    now rewrite IH.
Qed.

Lemma update_item_keys (k : string) (f : counts -> counts) (m : stats_map) :
  map fst (update_item k f m) = add_key k (map fst m).
Proof.
  induction m as [|[k' c] m IH]; simpl; auto.
  destruct (String.eqb k k'); simpl; auto. now rewrite IH.
Qed.

Lemma update_item_Forall (P : counts -> Prop) (k : string) (f : counts -> counts)
      (m : stats_map) :
  (forall c, P c -> P (f c)) -> P (f zero_counts) ->
  Forall (fun kc => P (snd kc)) m ->
  Forall (fun kc => P (snd kc)) (update_item k f m).
Proof.
  intros Hstep Hzero. induction 1 as [|[k' c] m Hc Hm IH]; simpl.
  - constructor; auto.
  - destruct (String.eqb k k'); constructor; simpl in *; auto.
Qed.

Lemma update_item_sum (k : string) (f : counts -> counts) (m : stats_map) :
  (forall c, total (f c) = total c + 1)%Z ->
  (sum_Z (fun kc => total (snd kc)) (update_item k f m)
   = sum_Z (fun kc => total (snd kc)) m + 1)%Z.
Proof.
  intros Hf. induction m as [|[k' c] m IH]; simpl.
  - rewrite Hf. reflexivity.
  - destruct (String.eqb k k'); simpl.
    + rewrite Hf. lia.
    + rewrite IH. lia.
Qed.

Lemma add_key_mem (k : string) (l : list string) :
  add_key k l = if mem k l then l else (l ++ [k])%list.
Proof.
  induction l as [|k' l IH]; simpl; auto.
  destruct (String.eqb k k'); simpl; auto.
  rewrite IH. now destruct (mem k l).
Qed.

Lemma mem_app (k : string) (l1 l2 : list string) :
  mem k (l1 ++ l2)%list = mem k l1 || mem k l2.
Proof. unfold mem. apply existsb_app. Qed.

Lemma filter_filter {A : Type} (p q : A -> bool) (l : list A) :
  filter p (filter q l) = filter (fun x => q x && p x) l.
Proof.
  induction l as [|x l IH]; simpl; auto.
  destruct (q x); simpl; rewrite ?IH; auto.
Qed.

Lemma fold_add_key (ks acc : list string) :
  fold_left (fun a k => add_key k a) ks acc
  = (acc ++ filter (fun k => negb (mem k acc)) (first_seen ks))%list.
Proof.
  revert acc. induction ks as [|k ks IH]; intros acc; simpl.
  - now rewrite app_nil_r.
  - rewrite IH, add_key_mem. destruct (mem k acc) eqn:Hk; simpl.
    + f_equal. rewrite filter_filter. apply filter_ext. intros x.
      destruct (String.eqb k x) eqn:E; simpl; auto.
      apply String.eqb_eq in E. subst. now rewrite Hk.
    + rewrite <- app_assoc. simpl. do 2 f_equal.
      rewrite filter_filter. apply filter_ext. intros x.
      rewrite mem_app. simpl. rewrite orb_false_r, negb_orb.
      rewrite (String.eqb_sym x k). apply andb_comm.
Qed.

Section AccumulatorFacts.

Context {RT : PyRuntime}.

Lemma count_attempt_once (st : stats_map) (d : attempt) :
  count_attempt st d
  = update_item (attempt_key d)
      (fun c => incr_total
                  ((if attempt_correct d then incr_correct else incr_incorrect) c))
      st.
Proof. unfold count_attempt. apply update_item_twice. Qed.

Lemma count_attempt_ok (st : stats_map) (d : attempt) :
  Forall (fun kc => counts_ok (snd kc)) st ->
  Forall (fun kc => counts_ok (snd kc)) (count_attempt st d).
Proof.
  intros H. rewrite count_attempt_once. apply update_item_Forall; auto.
  - intros c Hc. unfold counts_ok in *.
    destruct (attempt_correct d); simpl; lia.
  - unfold counts_ok. destruct (attempt_correct d); simpl; lia.
Qed.

Lemma count_attempt_sum (st : stats_map) (d : attempt) :
  (sum_Z (fun kc => total (snd kc)) (count_attempt st d)
   = sum_Z (fun kc => total (snd kc)) st + 1)%Z.
Proof.
  rewrite count_attempt_once. apply update_item_sum.
  intros c. now destruct (attempt_correct d).
Qed.

Lemma count_attempt_keys (st : stats_map) (d : attempt) :
  map fst (count_attempt st d) = add_key (attempt_key d) (map fst st).
Proof. rewrite count_attempt_once. apply update_item_keys. Qed.

Lemma tally_ok (ds : list attempt) (st : stats_map) :
  Forall (fun kc => counts_ok (snd kc)) st ->
  Forall (fun kc => counts_ok (snd kc)) (fold_left count_attempt ds st).
Proof.
  revert st. induction ds as [|d ds IH]; intros st H; simpl; auto.
  apply IH. now apply count_attempt_ok.
Qed.

Lemma tally_sum (ds : list attempt) (st : stats_map) :
  (sum_Z (fun kc => total (snd kc)) (fold_left count_attempt ds st)
   = sum_Z (fun kc => total (snd kc)) st + Z.of_nat (List.length ds))%Z.
Proof.
  revert st. induction ds as [|d ds IH]; intros st.
  - simpl. lia.
  - cbn [fold_left List.length]. rewrite IH, count_attempt_sum. lia.
Qed.

Lemma tally_keys (ds : list attempt) (st : stats_map) :
  map fst (fold_left count_attempt ds st)
  = fold_left (fun a k => add_key k a) (map attempt_key ds) (map fst st).
Proof.
  revert st. induction ds as [|d ds IH]; intros st; simpl; auto.
  now rewrite IH, count_attempt_keys.
Qed.

Lemma tally_first_seen (ds : list attempt) :
  map fst (fold_left count_attempt ds []) = first_seen (map attempt_key ds).
Proof.
  rewrite tally_keys, fold_add_key. simpl.
  induction (first_seen (map attempt_key ds)) as [|x l IH]; simpl; congruence.
Qed.

End AccumulatorFacts.

(** ** What each entry counts *)

Lemma lookup_update_item (k k' : string) (f : counts -> counts) (m : stats_map) :
  assoc_lookup k (update_item k' f m)
  = if String.eqb k k' then Some (f (get_counts k m)) else assoc_lookup k m.
Proof.
  unfold get_counts. induction m as [|[k0 c0] m IH]; simpl.
  - now destruct (String.eqb k k').
  - destruct (String.eqb k' k0) eqn:E0; simpl.
    + apply String.eqb_eq in E0. subst k0.
      now destruct (String.eqb k k').
    + rewrite IH. destruct (String.eqb k k') eqn:E; [|reflexivity].
      apply String.eqb_eq in E. subst k'. now rewrite E0.
Qed.

Lemma get_counts_update_item (k k' : string) (f : counts -> counts) (m : stats_map) :
  get_counts k (update_item k' f m)
  = if String.eqb k k' then f (get_counts k m) else get_counts k m.
Proof.
  unfold get_counts at 1. rewrite lookup_update_item.
  now destruct (String.eqb k k').
Qed.

Lemma lookup_NoDup (k : string) (c : counts) (m : stats_map) :
  NoDup (map fst m) -> In (k, c) m -> assoc_lookup k m = Some c.
Proof.
  induction m as [|[k0 c0] m IH]; simpl; intros Hnd Hin; [tauto|].
  inversion Hnd as [|? ? Hnot Hnd']; subst.
  destruct Hin as [Heq|Hin].
  - injection Heq as -> ->. now rewrite String.eqb_refl.
  - destruct (String.eqb k k0) eqn:E.
    + apply String.eqb_eq in E. subst k0. exfalso. apply Hnot.
      change k with (fst (k, c)). now apply in_map.
    + now apply IH.
Qed.

Lemma first_seen_In (k : string) (l : list string) :
  In k (first_seen l) <-> In k l.
Proof.
  induction l as [|k0 l IH]; simpl; [tauto|].
  rewrite filter_In, IH. split.
  - intros [H|[H _]]; auto.
  - intros [H|H]; auto.
    destruct (String.eqb k0 k) eqn:E.
    + apply String.eqb_eq in E. auto.
    + right. now split.
Qed.

Lemma first_seen_NoDup (l : list string) : NoDup (first_seen l).
Proof.
  induction l as [|k l IH]; simpl; constructor.
  - rewrite filter_In. intros [_ H]. now rewrite String.eqb_refl in H.
  - now apply NoDup_filter.
Qed.

Section CountFacts.

Context {RT : PyRuntime}.

Lemma get_counts_count_attempt (k : string) (st : stats_map) (d : attempt) :
  get_counts k (count_attempt st d)
  = if String.eqb (attempt_key d) k
    then incr_total
           ((if attempt_correct d then incr_correct else incr_incorrect)
              (get_counts k st))
    else get_counts k st.
Proof.
  rewrite count_attempt_once, get_counts_update_item.
  now rewrite (String.eqb_sym k).
Qed.

(** The entry of a key counts the attempts filed under that key: all of
    them in [total], the correct ones in [correct], the others in
    [incorrect]. *)
Lemma tally_counts (k : string) (ds : list attempt) (st : stats_map) :
  let mine := attempts_with_key k ds in
  let c := get_counts k (fold_left count_attempt ds st) in
  (total c = total (get_counts k st) + Z.of_nat (List.length mine)
   /\ correct c
      = correct (get_counts k st)
        + Z.of_nat (List.length (filter attempt_correct mine))
   /\ incorrect c
      = incorrect (get_counts k st)
        + Z.of_nat (List.length (filter (fun d => negb (attempt_correct d)) mine)))%Z.
Proof.
  revert st. induction ds as [|d ds IH]; intros st; cbn zeta.
  - simpl. lia.
  - cbn [fold_left]. specialize (IH (count_attempt st d)). cbn zeta in IH.
    destruct IH as (Ht & Hc & Hi). rewrite Ht, Hc, Hi.
    rewrite get_counts_count_attempt.
    unfold attempts_with_key. cbn [filter].
    destruct (String.eqb (attempt_key d) k); [|lia].
    cbn [filter]. destruct (attempt_correct d); simpl; lia.
Qed.

Lemma tally_NoDup (ds : list attempt) :
  NoDup (map fst (fold_left count_attempt ds [])).
Proof. rewrite tally_first_seen. apply first_seen_NoDup. Qed.

Lemma tally_entry_counts (k : string) (c : counts) (ds : list attempt) :
  In (k, c) (fold_left count_attempt ds []) ->
  (total c = Z.of_nat (List.length (attempts_with_key k ds))
   /\ correct c
      = Z.of_nat (List.length (filter attempt_correct (attempts_with_key k ds)))
   /\ incorrect c
      = Z.of_nat (List.length
                    (filter (fun d => negb (attempt_correct d))
                       (attempts_with_key k ds))))%Z.
Proof.
  intros Hin.
  pose proof (lookup_NoDup _ _ _ (tally_NoDup ds) Hin) as Hl.
  pose proof (tally_counts k ds []) as H. cbn zeta in H.
  unfold get_counts in H at 1 3 5. rewrite Hl in H.
  exact H.
Qed.

End CountFacts.

(** ** Splitting a key *)

Lemma string_of_rev_snoc (cur : list ascii) (c : ascii) (s : string) :
  string_of_list_ascii (rev (c :: cur)) ++ s
  = string_of_list_ascii (rev cur) ++ String c s.
Proof.
  simpl. induction (rev cur) as [|x l IH]; simpl; congruence.
Qed.

Lemma string_app_nil_r (s : string) : s ++ EmptyString = s.
Proof. induction s as [|c s IH]; simpl; congruence. Qed.

Lemma string_app_assoc (s1 s2 s3 : string) :
  (s1 ++ s2) ++ s3 = s1 ++ (s2 ++ s3).
Proof. induction s1 as [|c s1 IH]; simpl; congruence. Qed.

Lemma string_app_length (s1 s2 : string) :
  String.length (s1 ++ s2) = (String.length s1 + String.length s2)%nat.
Proof. induction s1 as [|c s1 IH]; simpl; congruence. Qed.

Lemma is_prefix_app (p s : string) :
  is_prefix p s = true -> exists rest, s = p ++ rest.
Proof.
  revert s. induction p as [|a p IH]; intros s H; simpl in *.
  - now exists s.
  - destruct s as [|b s]; [discriminate|].
    destruct (Ascii.eqb a b) eqn:E; [|discriminate].
    apply Ascii.eqb_eq in E. subst b.
    destruct (IH _ H) as [rest ->]. now exists rest.
Qed.

Lemma split_scan_nonempty (sep : string) (skip : nat) (cur : list ascii) (s : string) :
  split_scan sep skip cur s <> [].
Proof.
  revert skip cur. induction s as [|c s IH]; intros skip cur; cbn [split_scan].
  - discriminate.
  - destruct skip; [|apply IH].
    destruct (is_prefix sep (String c s)); [discriminate | apply IH].
Qed.

Lemma split_scan_skip (sep t rest : string) (cur : list ascii) :
  split_scan sep (String.length t) cur (t ++ rest) = split_scan sep 0 cur rest.
Proof. induction t as [|c t IH]; simpl; auto. Qed.

Lemma concat_cons_nonempty (sep x : string) (l : list string) :
  l <> [] -> String.concat sep (x :: l) = x ++ sep ++ String.concat sep l.
Proof. destruct l; [congruence | reflexivity]. Qed.

(** Joining the parts of a split with the separator gives the string back. *)
Lemma concat_split_scan (a : ascii) (sep' : string) (n : nat) :
  forall (s : string) (cur : list ascii),
    (String.length s <= n)%nat ->
    String.concat (String a sep') (split_scan (String a sep') 0 cur s)
    = string_of_list_ascii (rev cur) ++ s.
Proof.
  induction n as [|n IH]; intros s cur Hn.
  - destruct s; [simpl; now rewrite string_app_nil_r | simpl in Hn; lia].
  - destruct s as [|c s]; [simpl; now rewrite string_app_nil_r|].
    cbn [split_scan].
    destruct (is_prefix (String a sep') (String c s)) eqn:E.
    + destruct (is_prefix_app _ _ E) as [rest Hrest].
      injection Hrest as -> ->.
      rewrite concat_cons_nonempty by apply split_scan_nonempty.
      replace (String.length (String a sep') - 1)%nat with (String.length sep')
        by (simpl; lia).
      rewrite split_scan_skip, IH.
      * reflexivity.
      * simpl in Hn. rewrite string_app_length in Hn. lia.
    + rewrite IH by (simpl in Hn; lia).
      apply string_of_rev_snoc.
Qed.

Lemma concat_split (sep s : string) :
  sep <> EmptyString -> String.concat sep (split sep s) = s.
Proof.
  intros Hsep. destruct sep as [|a sep']; [congruence|].
  unfold split. now rewrite (concat_split_scan a sep' (String.length s)).
Qed.

Lemma split_two_join (k a b : string) :
  split " | " k = [a; b] -> k = a ++ " | " ++ b.
Proof.
  intros H. rewrite <- (concat_split " | " k) by discriminate.
  now rewrite H.
Qed.

Lemma pipe_free_no_prefix (c : ascii) (s : string) :
  pipe_free (String c s) = true -> is_prefix " | " (String c s) = false.
Proof.
  cbn [pipe_free is_prefix]. intros H.
  apply andb_true_iff in H. destruct H as [_ Hs].
  destruct (Ascii.eqb " " c); [|reflexivity].
  destruct s as [|c2 s]; [reflexivity|].
  cbn [pipe_free] in Hs. apply andb_true_iff in Hs. destruct Hs as [Hc2 _].
  rewrite Ascii.eqb_sym.
  destruct (Ascii.eqb c2 "|"); [discriminate | reflexivity].
Qed.

Lemma split_scan_pipe_free (s : string) (cur : list ascii) :
  pipe_free s = true ->
  split_scan " | " 0 cur s = [string_of_list_ascii (rev cur) ++ s].
Proof.
  revert cur. induction s as [|c s IH]; intros cur H.
  - cbn [split_scan]. now rewrite string_app_nil_r.
  - cbn [split_scan]. rewrite (pipe_free_no_prefix c s H).
    cbn [pipe_free] in H. apply andb_true_iff in H. destruct H as [_ Hs].
    rewrite (IH _ Hs). now rewrite string_of_rev_snoc.
Qed.

Lemma joined_no_prefix (c : ascii) (a b : string) :
  pipe_free (String c a) = true ->
  is_prefix " | " (String c (a ++ " | " ++ b)) = false.
Proof.
  cbn [pipe_free is_prefix]. intros H.
  apply andb_true_iff in H. destruct H as [_ Ha].
  destruct (Ascii.eqb " " c); [|reflexivity].
  destruct a as [|c2 a]; [reflexivity|].
  cbn [pipe_free] in Ha. apply andb_true_iff in Ha. destruct Ha as [Hc2 _].
  cbn [String.append is_prefix]. rewrite Ascii.eqb_sym.
  destruct (Ascii.eqb c2 "|"); [discriminate | reflexivity].
Qed.

Lemma split_scan_joined (a b : string) (cur : list ascii) :
  pipe_free a = true -> pipe_free b = true ->
  split_scan " | " 0 cur (a ++ " | " ++ b)
  = [string_of_list_ascii (rev cur) ++ a; b].
Proof.
  intros Ha Hb. revert cur. induction a as [|c a IH]; intros cur.
  - change (EmptyString ++ " | " ++ b)
      with (String " " (String "|" (String " " b))).
    cbn [split_scan is_prefix]. rewrite !Ascii.eqb_refl.
    cbn [String.length Nat.sub split_scan].
    rewrite (split_scan_pipe_free b [] Hb).
    cbn [rev string_of_list_ascii String.append].
    now rewrite string_app_nil_r.
  - change (String c a ++ " | " ++ b) with (String c (a ++ " | " ++ b)).
    cbn [split_scan]. rewrite (joined_no_prefix c a b Ha).
    cbn [pipe_free] in Ha. apply andb_true_iff in Ha. destruct Ha as [_ Ha].
    rewrite (IH Ha). now rewrite string_of_rev_snoc.
Qed.

(** A key joined from two bar-free parts splits back into them. *)
Lemma split_joined (a b : string) :
  pipe_free a = true -> pipe_free b = true ->
  split " | " (a ++ " | " ++ b) = [a; b].
Proof.
  intros Ha Hb. unfold split. now rewrite split_scan_joined.
Qed.

(** ** Relative order in a list *)

Lemma before_nth {A : Type} (l : list A) (i j : nat) (x y : A) :
  (i < j)%nat -> nth_error l i = Some x -> nth_error l j = Some y ->
  before l x y.
Proof.
  intros Hij Hi Hj.
  destruct (nth_error_split l i Hi) as (l1 & l2 & -> & Hlen).
  rewrite nth_error_app2 in Hj by lia.
  destruct (j - List.length l1)%nat as [|m] eqn:Hm; [lia|].
  simpl in Hj.
  destruct (nth_error_split l2 m Hj) as (l2a & l2b & -> & _).
  now exists l1, l2a, l2b.
Qed.

Lemma before_filter {A : Type} (p : A -> bool) (l : list A) (x y : A) :
  p x = true -> p y = true -> before l x y -> before (filter p l) x y.
Proof.
  intros Hx Hy (l1 & l2 & l3 & ->).
  exists (filter p l1), (filter p l2), (filter p l3).
  rewrite filter_app. simpl. rewrite Hx, filter_app. simpl. now rewrite Hy.
Qed.

Lemma filter_split {A : Type} (p : A -> bool) (l a b : list A) (x : A) :
  filter p l = (a ++ x :: b)%list ->
  exists a' b', l = (a' ++ x :: b')%list /\ filter p a' = a /\ filter p b' = b.
Proof.
  revert a. induction l as [|z l IH]; intros a H; simpl in H.
  - destruct a; discriminate.
  - destruct (p z) eqn:Hz.
    + destruct a as [|a0 a]; simpl in H; injection H as -> H.
      * exists [], l. simpl. auto.
      * destruct (IH _ H) as (a' & b' & -> & <- & <-).
        exists (a0 :: a'), b'. simpl. now rewrite Hz.
    + destruct (IH _ H) as (a' & b' & -> & <- & <-).
      exists (z :: a'), b'. simpl. now rewrite Hz.
Qed.

Lemma before_of_filter {A : Type} (p : A -> bool) (l : list A) (x y : A) :
  before (filter p l) x y -> before l x y.
Proof.
  intros (l1 & l2 & l3 & H).
  destruct (filter_split p l l1 _ x H) as (a' & b' & -> & _ & Hb).
  destruct (filter_split p b' l2 l3 y Hb) as (c' & d' & -> & _ & _).
  now exists a', c', d'.
Qed.

Lemma before_map {A B : Type} (f : A -> B) (l : list A) (x y : A) :
  before l x y -> before (map f l) (f x) (f y).
Proof.
  intros (l1 & l2 & l3 & ->).
  exists (map f l1), (map f l2), (map f l3).
  rewrite map_app. simpl. now rewrite map_app.
Qed.

Lemma before_In {A : Type} (l : list A) (x y : A) :
  before l x y -> In x l /\ In y l.
Proof.
  intros (l1 & l2 & l3 & ->). split.
  - apply in_or_app. right. now left.
  - apply in_or_app. right. right. apply in_or_app. right. now left.
Qed.

(** In the list of first occurrences, a key that stands before another was
    met earlier in the original sequence. *)
Lemma before_first_seen (ks : list string) (x y : string) :
  before (first_seen ks) x y -> (first_index x ks < first_index y ks)%nat.
Proof.
  induction ks as [|k ks IH]; intros H.
  - destruct H as (l1 & l2 & l3 & H). destruct l1; discriminate.
  - simpl in H. destruct H as (l1 & l2 & l3 & H).
    set (F := filter (fun k' => negb (String.eqb k k')) (first_seen ks)) in *.
    assert (Hne : forall z, In z F -> String.eqb z k = false).
    { intros z Hz. apply filter_In in Hz. destruct Hz as [_ Hz].
      rewrite String.eqb_sym. now destruct (String.eqb k z). }
    destruct l1 as [|k0 l1]; simpl in H; injection H as <- HF.
    + simpl. rewrite String.eqb_refl.
      rewrite (Hne y); [lia|].
      rewrite HF. apply in_or_app. right. now left.
    + assert (Hb : before F x y) by (now exists l1, l2, l3).
      destruct (before_In _ _ _ Hb) as [Hx Hy].
      simpl. rewrite (Hne x Hx), (Hne y Hy).
      apply before_of_filter in Hb. apply IH in Hb. lia.
Qed.

Lemma Forall2_In_r {A B : Type} (R : A -> B -> Prop) (l : list A) (l' : list B) (y : B) :
  Forall2 R l l' -> In y l' -> exists x, In x l /\ R x y.
Proof.
  induction 1 as [|a b l l' Hab Hll IH]; intros Hy.
  - destruct Hy.
  - destruct Hy as [<-|Hy].
    + exists a. split; [now left | assumption].
    + destruct (IH Hy) as (x & Hx & HR). exists x. split; [now right | assumption].
Qed.

Lemma sum_Z_insert_desc (f : SubtopicWeakness -> Z) (x : SubtopicWeakness)
      (l : list SubtopicWeakness) :
  (sum_Z f (insert_desc x l) = f x + sum_Z f l)%Z.
Proof.
  induction l as [|y l IH]; simpl; auto.
  destruct (Qle_bool _ _); simpl; auto. rewrite IH. lia.
Qed.

Lemma sum_Z_sort_desc (f : SubtopicWeakness -> Z) (l : list SubtopicWeakness) :
  sum_Z f (sort_desc l) = sum_Z f l.
Proof.
  induction l as [|x l IH]; simpl; auto.
  now rewrite sum_Z_insert_desc, IH.
Qed.

(** ** The endpoint *)

Lemma build_weaknesses_ok (st : stats_map) (ws : list SubtopicWeakness) :
  Forall (fun kc => counts_ok (snd kc)) st ->
  build_weaknesses (with_error_rates st) = Ok ws -> Forall2 emitted_from st ws.
Proof.
  intros Hok. revert ws.
  induction Hok as [|[k c] st Hc Hst IH]; intros ws H; simpl in H.
  - injection H as <-. constructor.
  - simpl in Hc. assert (Ht : (total c >=? 1)%Z = true).
    { destruct Hc as [Hc _]. apply Z.geb_le. exact Hc. }
    rewrite Ht in H.
    destruct (split " | " k) as [|a [|b [|x l]]] eqn:Hs; try discriminate.
    destruct (build_weaknesses (with_error_rates st)) as [ws'|e]; [|discriminate].
    injection H as <-. constructor; [|now apply IH].
    unfold emitted_from. simpl. now rewrite Hs.
Qed.

Lemma emitted_group_key (kc : string * counts) (w : SubtopicWeakness) :
  emitted_from kc w -> group_key w = fst kc.
Proof.
  intros [Hs _]. unfold group_key. symmetry. now apply split_two_join.
Qed.

Lemma emitted_group_keys (st : stats_map) (ws : list SubtopicWeakness) :
  Forall2 emitted_from st ws -> map group_key ws = map fst st.
Proof.
  induction 1 as [|kc w st ws Hkw Hrest IH]; simpl; auto.
  now rewrite (emitted_group_key _ _ Hkw), IH.
Qed.

Lemma emitted_sum (st : stats_map) (ws : list SubtopicWeakness) :
  Forall (fun kc => counts_ok (snd kc)) st ->
  Forall2 emitted_from st ws ->
  sum_Z (fun w => correct_answers w + incorrect_answers w)%Z ws
  = sum_Z (fun kc => total (snd kc)) st.
Proof.
  intros Hok H. induction H as [|kc w st ws Hkw Hrest IH]; simpl; auto.
  inversion Hok as [|? ? Hc Hst]; subst.
  rewrite (IH Hst).
  destruct Hkw as (_ & _ & _ & -> & ->).
  destruct Hc as (_ & -> & _). reflexivity.
Qed.

Section EndpointFacts.

Context {RT : PyRuntime}.

(** What a 200 response was computed from. *)
Lemma response_200_inv (uid : string) (fetched : result (list pyval))
      (body : UserWeaknessResponse) :
  get_user_weaknesses uid fetched = Response200 body ->
  exists tests ws,
    fetched = Ok tests /\ tests <> []
    /\ Forall (fun kc => counts_ok (snd kc))
         (fold_left count_attempt (flat_map record_attempts tests) [])
    /\ Forall2 emitted_from
         (fold_left count_attempt (flat_map record_attempts tests) []) ws
    /\ body = {| user_id := uid;
                 weaknesses := sort_desc ws;
                 total_areas_analyzed := Z.of_nat (List.length (sort_desc ws)) |}.
Proof.
  unfold get_user_weaknesses. intros H.
  destruct (analyze uid fetched) as [body'|e] eqn:Ha; [|discriminate].
  injection H as ->. unfold analyze in Ha.
  destruct fetched as [tests|e]; [|discriminate].
  destruct tests as [|t tests]; [discriminate|].
  destruct (for_each process_test (t :: tests) []) as [st [[]|e]] eqn:Hloop;
    [|discriminate].
  apply for_each_test_ok in Hloop.
  destruct (build_weaknesses (with_error_rates st)) as [ws|e] eqn:Hb;
    [|discriminate].
  injection Ha as <-.
  assert (Hok : Forall (fun kc => counts_ok (snd kc)) st).
  { subst st. apply tally_ok. constructor. }
  exists (t :: tests), ws. rewrite <- Hloop.
  repeat split; auto.
  - discriminate.
  - now apply build_weaknesses_ok.
Qed.

End EndpointFacts.

(** The response to the sample tests. *)
Lemma sample_response :
  get_user_weaknesses (RT := sample_runtime) "u1" (Ok sample_tests)
  = Response200 sample_body.
Proof. reflexivity. Defined.

(** ** Records and their attempts *)

Section RecordFacts.

Context {RT : PyRuntime}.

Lemma process_questions_well_formed (questions : pyval) (st : stats_map) :
  well_formed_questions questions = true ->
  process_questions questions st
  = (fold_left count_attempt (attempts_in questions) st, Ok tt).
Proof.
  destruct questions; try discriminate. simpl. intros H.
  unfold process_questions, bind, lift, py_iter.
  now apply for_each_question_dicts.
Qed.

Lemma process_test_well_formed (test : pyval) (st : stats_map) :
  well_formed_record test = true ->
  process_test test st
  = (fold_left count_attempt (record_attempts test) st, Ok tt).
Proof.
  unfold well_formed_record, record_attempts, record_questions.
  unfold process_test, try_except, bind, lift.
  destruct (py_getitem test "question_details") as [questions|e]; [|discriminate].
  destruct questions; try discriminate.
  - destruct (json_loads s) as [decoded|e]; [|discriminate].
    intros H. now rewrite (process_questions_well_formed _ st H).
  - intros H. now rewrite (process_questions_well_formed _ st H).
Qed.

Lemma for_each_test_well_formed (tests : list pyval) (st : stats_map) :
  forallb well_formed_record tests = true ->
  for_each process_test tests st
  = (fold_left count_attempt (flat_map record_attempts tests) st, Ok tt).
Proof.
  revert st. induction tests as [|t tests IH]; intros st H.
  - reflexivity.
  - simpl in H. apply andb_true_iff in H. destruct H as [Ht Hts].
    simpl. unfold bind. rewrite (process_test_well_formed t st Ht).
    now rewrite IH, fold_left_app.
Qed.

Lemma process_questions_not_iterable (questions : pyval) (st : stats_map) :
  not_iterable questions = true ->
  exists msg, process_questions questions st = (st, Raise (TypeError msg)).
Proof.
  destruct questions; try discriminate; intros _; eexists; reflexivity.
Qed.

(** A record with a missing field, an undecodable string or a collection
    that cannot be iterated leaves the accumulator as it was and does not
    stop the loop. *)
Lemma process_test_skipped (test : pyval) (st : stats_map) :
  skipped_record test = true -> process_test test st = (st, Ok tt).
Proof.
  unfold skipped_record, process_test, try_except, bind, lift.
  destruct (py_getitem test "question_details") as [questions|e] eqn:Hq.
  - assert (Hgen : forall v, not_iterable v = true ->
      match process_questions v st with
      | (st', Raise e) =>
          if is_TypeError_or_KeyError e then (st', Ok tt) else (st', Raise e)
      | r => r
      end = (st, Ok tt)).
    { intros v Hv. destruct (process_questions_not_iterable v st Hv) as [msg ->].
      reflexivity. }
    destruct questions; try (apply Hgen); try discriminate.
    destruct (json_loads s) as [decoded|e]; [apply Hgen|].
    destruct e; simpl; intros H; try discriminate; reflexivity.
  - intros _. destruct test; simpl in Hq; try (injection Hq as <-; reflexivity).
    destruct (assoc_lookup "question_details" d); [discriminate|].
    injection Hq as <-. reflexivity.
Qed.

Lemma for_each_test_skipped (tests : list pyval) (st : stats_map) :
  for_each process_test tests st
  = for_each process_test (filter (fun t => negb (skipped_record t)) tests) st.
Proof.
  revert st. induction tests as [|t tests IH]; intros st; [reflexivity|].
  cbn [filter]. destruct (skipped_record t) eqn:Hs; cbn [negb for_each].
  - unfold bind at 1. rewrite (process_test_skipped t st Hs). apply IH.
  - unfold bind. destruct (process_test t st) as [st' [[]|e]]; auto.
Qed.

Lemma tally_keys_from_attempts (ds : list attempt) (k : string) (c : counts) :
  In (k, c) (fold_left count_attempt ds []) ->
  exists d, In d ds /\ attempt_key d = k.
Proof.
  intros Hin.
  assert (Hk : In k (map fst (fold_left count_attempt ds []))).
  { change k with (fst (k, c)). now apply in_map. }
  rewrite tally_first_seen in Hk. apply (proj1 (first_seen_In _ _)) in Hk.
  apply in_map_iff in Hk. destruct Hk as (d & Hd & Hin'). now exists d.
Qed.

Lemma plain_attempt_splits (d : attempt) :
  plain_attempt d = true ->
  split " | " (attempt_key d)
  = [format_value (attempt_get d "subtopic" (PStr "Unknown"));
     format_value (attempt_get d "section" (PStr "Unknown"))].
Proof.
  unfold plain_attempt, attempt_key. intros H.
  apply andb_true_iff in H. destruct H as [Ha Hb].
  now apply split_joined.
Qed.

Lemma build_weaknesses_total (st : stats_map) :
  (forall k c, In (k, c) st -> exists a b, split " | " k = [a; b]) ->
  exists ws, build_weaknesses (with_error_rates st) = Ok ws.
Proof.
  induction st as [|[k c] st IH]; intros Hsplit.
  - now exists [].
  - destruct IH as [ws Hws].
    { intros k' c' Hin. apply (Hsplit k' c'). now right. }
    destruct (Hsplit k c) as (a & b & Hab); [now left|].
    simpl. rewrite Hab, Hws.
    destruct (total c >=? 1)%Z; eauto.
Qed.

End RecordFacts.

(** ** When the endpoint succeeds *)

Section PassFacts.

Context {RT : PyRuntime}.

Lemma for_each_question_stops (items : list pyval) (st : stats_map) :
  forallb is_dict items = false ->
  exists st' msg,
    for_each process_question items st = (st', Raise (AttributeError msg)).
Proof.
  revert st. induction items as [|v items IH]; intros st H; [discriminate|].
  simpl. unfold bind. destruct (is_dict v) eqn:Hv.
  - destruct v; try discriminate. rewrite process_question_dict.
    simpl in H. apply IH. exact H.
  - rewrite (process_question_not_dict v st Hv). eauto.
Qed.

Lemma items_pass_attempts (questions : pyval) :
  items_pass questions = true ->
  match py_iter questions with
  | Ok items => flat_map dict_entries items = attempts_in questions
  | Raise _ => attempts_in questions = []
  end.
Proof.
  unfold items_pass. destruct questions; simpl; try reflexivity.
  - destruct s; [reflexivity | discriminate].
  - destruct d; [reflexivity | discriminate].
Qed.

(** The part of [process_test] that follows the lookup of the field. *)
Lemma guarded_questions_pass (questions : pyval) (st : stats_map) :
  items_pass questions = true ->
  match process_questions questions st with
  | (st', Raise e) =>
      if is_TypeError_or_KeyError e then (st', Ok tt) else (st', Raise e)
  | r => r
  end = (fold_left count_attempt (attempts_in questions) st, Ok tt).
Proof.
  intros H. pose proof (items_pass_attempts questions H) as Ha.
  unfold items_pass in H. unfold process_questions, bind, lift.
  destruct (py_iter questions) as [items|e].
  - rewrite (for_each_question_dicts items st H). now rewrite Ha.
  - rewrite H, Ha. reflexivity.
Qed.

Lemma guarded_questions_stop (questions : pyval) (st : stats_map) :
  items_pass questions = false ->
  exists st' e,
    match process_questions questions st with
    | (st'0, Raise e0) =>
        if is_TypeError_or_KeyError e0 then (st'0, Ok tt) else (st'0, Raise e0)
    | r => r
    end = (st', Raise e).
Proof.
  unfold items_pass, process_questions, bind, lift. intros H.
  destruct (py_iter questions) as [items|e].
  - destruct (for_each_question_stops items st H) as (st' & msg & ->).
    simpl. eauto.
  - rewrite H. eauto.
Qed.

(** Whether a record stops the loop does not depend on the accumulator. *)
Lemma process_test_passes (test : pyval) (st : stats_map) :
  record_passes test = true ->
  process_test test st
  = (fold_left count_attempt (record_attempts test) st, Ok tt).
Proof.
  unfold record_passes, record_attempts, record_questions.
  unfold process_test, try_except, bind, lift.
  destruct (py_getitem test "question_details") as [questions|e].
  - destruct questions; try (apply guarded_questions_pass).
    destruct (json_loads s) as [decoded|e]; [apply guarded_questions_pass|].
    destruct e; simpl; intros H; try discriminate; reflexivity.
  - intros ->. reflexivity.
Qed.

Lemma process_test_stops (test : pyval) (st : stats_map) :
  record_passes test = false ->
  exists st' e, process_test test st = (st', Raise e).
Proof.
  unfold record_passes, process_test, try_except, bind, lift.
  destruct (py_getitem test "question_details") as [questions|e].
  - destruct questions; try (apply guarded_questions_stop).
    destruct (json_loads s) as [decoded|e]; [apply guarded_questions_stop|].
    destruct e; simpl; intros H; try discriminate; unfold raise; eauto.
  - intros ->. eauto.
Qed.

Lemma for_each_test_passes (tests : list pyval) (st : stats_map) :
  forallb record_passes tests = true ->
  for_each process_test tests st
  = (fold_left count_attempt (flat_map record_attempts tests) st, Ok tt).
Proof.
  revert st. induction tests as [|t tests IH]; intros st H; [reflexivity|].
  simpl in H. apply andb_true_iff in H. destruct H as [Ht Hts].
  simpl. unfold bind. rewrite (process_test_passes t st Ht).
  now rewrite IH, fold_left_app.
Qed.

Lemma for_each_test_stops (tests : list pyval) (st : stats_map) :
  forallb record_passes tests = false ->
  exists st' e, for_each process_test tests st = (st', Raise e).
Proof.
  revert st. induction tests as [|t tests IH]; intros st H; [discriminate|].
  simpl in H. simpl. unfold bind.
  destruct (record_passes t) eqn:Ht.
  - rewrite (process_test_passes t st Ht). apply IH. exact H.
  - destruct (process_test_stops t st Ht) as (st' & e & ->). eauto.
Qed.

Lemma splits_in_two_parts (k : string) :
  splits_in_two k = true <-> exists a b, split " | " k = [a; b].
Proof.
  unfold splits_in_two. split.
  - intros H. destruct (split " | " k) as [|a [|b [|c l]]]; try discriminate.
    eauto.
  - intros (a & b & ->). reflexivity.
Qed.

(** The response once the loop has gone through. *)
Lemma analyze_after_loop (uid : string) (t : pyval) (tests : list pyval) :
  forallb record_passes (t :: tests) = true ->
  analyze uid (Ok (t :: tests))
  = match build_weaknesses
            (with_error_rates
               (fold_left count_attempt (flat_map record_attempts (t :: tests)) []))
    with
    | Raise e => Raise e
    | Ok ws =>
        Ok {| user_id := uid;
              weaknesses := sort_desc ws;
              total_areas_analyzed := Z.of_nat (List.length (sort_desc ws)) |}
    end.
Proof.
  intros H. unfold analyze.
  now rewrite (for_each_test_passes (t :: tests) [] H).
Qed.

End PassFacts.

Lemma response_200_conditions {RT : PyRuntime}
      (uid : string) (tests : list pyval) (body : UserWeaknessResponse) :
  get_user_weaknesses uid (Ok tests) = Response200 body ->
  tests <> []
  /\ forallb record_passes tests = true
  /\ forallb splits_in_two
       (map attempt_key (flat_map record_attempts tests)) = true.
Proof.
  intros H.
  destruct (response_200_inv _ _ _ H) as (tests' & ws & Heq & Hne & _ & Hem & _).
  injection Heq as <-. split; [exact Hne|].
  destruct (forallb record_passes tests) eqn:Hpass.
  - split; [reflexivity|]. apply forallb_forall. intros k Hk.
    apply splits_in_two_parts.
    apply (proj2 (first_seen_In _ _)) in Hk.
    rewrite <- tally_first_seen, <- (emitted_group_keys _ _ Hem) in Hk.
    apply in_map_iff in Hk. destruct Hk as (w & <- & Hw).
    destruct (Forall2_In_r _ _ _ _ Hem Hw) as (kc & _ & Hfrom).
    rewrite (emitted_group_key _ _ Hfrom).
    destruct Hfrom as [Hs _]. eauto.
  - exfalso. unfold get_user_weaknesses, analyze in H.
    destruct tests as [|t tests]; [congruence|].
    destruct (for_each_test_stops (t :: tests) [] Hpass) as (st' & e & Hstop).
    rewrite Hstop in H. discriminate.
Qed.

Lemma conditions_response_200 {RT : PyRuntime} (uid : string) (tests : list pyval) :
  tests <> [] ->
  forallb record_passes tests = true ->
  forallb splits_in_two (map attempt_key (flat_map record_attempts tests)) = true ->
  exists ws,
    build_weaknesses
      (with_error_rates (fold_left count_attempt (flat_map record_attempts tests) []))
    = Ok ws
    /\ get_user_weaknesses uid (Ok tests)
       = Response200
           {| user_id := uid;
              weaknesses := sort_desc ws;
              total_areas_analyzed := Z.of_nat (List.length (sort_desc ws)) |}.
Proof.
  intros Hne Hpass Hkeys.
  destruct tests as [|t tests]; [congruence|].
  destruct (build_weaknesses_total
              (fold_left count_attempt (flat_map record_attempts (t :: tests)) []))
    as [ws Hws].
  { intros k c Hin. apply splits_in_two_parts.
    destruct (tally_keys_from_attempts _ _ _ Hin) as (d & Hd & <-).
    rewrite forallb_forall in Hkeys. apply Hkeys. now apply in_map. }
  exists ws. split; [exact Hws|].
  unfold get_user_weaknesses.
  now rewrite (analyze_after_loop uid t tests Hpass), Hws.
Qed.

(** * The claims *)

(** C1.  When the fetch returns no test record, the handler raises the 404
    [HTTPException] inside the outer [try]; [except Exception] catches it
    and the client receives status 500, whose detail quotes the 404 and its
    message.  Whatever the fetch returns, the status is 200 or 500: the
    endpoint never answers 404. *)
Theorem empty_fetch_answers_500 {RT : PyRuntime} (uid : string) :
  get_user_weaknesses uid (Ok [])
  = ResponseError 500
      ("Error analyzing user weaknesses: "
         ++ exn_str (HTTPException 404
                       ("No onboarding test data found for user " ++ uid)))
  /\ forall fetched,
       (exists body, get_user_weaknesses uid fetched = Response200 body)
       \/ (exists detail,
             get_user_weaknesses uid fetched = ResponseError 500 detail).
Proof.
  split; [reflexivity|].
  intros fetched. unfold get_user_weaknesses.
  destruct (analyze uid fetched) as [body|e]; eauto.
Qed.

(** C2.  A record whose question list holds an entry that is not an object
    is not skipped: [question.get] raises [AttributeError], which the inner
    [except (TypeError, KeyError)] does not catch, and the request fails
    with status 500, although the other record is well formed and alone
    yields a 200 response with its group. *)
Theorem non_object_question_aborts {RT : PyRuntime} (uid : string) :
  get_user_weaknesses uid
    (Ok [test_record (PList [question "Algebra" "Math" true]);
         test_record (PList [PInt 5])])
  = ResponseError 500
      "Error analyzing user weaknesses: 'int' object has no attribute 'get'"
  /\ get_user_weaknesses uid
       (Ok [test_record (PList [question "Algebra" "Math" true])])
     = Response200
         {| user_id := uid;
            weaknesses :=
              [{| subtopic := "Algebra"; section := "Math"; error_rate := 0;
                  total_questions := 1; correct_answers := 1;
                  incorrect_answers := 0 |}];
            total_areas_analyzed := 1 |}.
Proof. split; reflexivity. Qed.




(** C4.  The bucket of an attempt is the string [subtopic | section], not
    the pair: the attempts [("a |", "b")] and [("a", "| b")] have different
    pairs and the same key, and the response counts both in one group,
    labelled [("a", "| b")]. *)
Theorem delimiter_collision_merges_groups {RT : PyRuntime} (uid : string) :
  get_user_weaknesses uid
    (Ok [test_record (PList [question "a |" "b" true; question "a" "| b" false])])
  = Response200
      {| user_id := uid;
         weaknesses :=
           [{| subtopic := "a"; section := "| b"; error_rate := 50;
               total_questions := 2; correct_answers := 1;
               incorrect_answers := 1 |}];
         total_areas_analyzed := 1 |}.
Proof. reflexivity. Qed.

(** C5.  One well-formed attempt whose subtopic contains the delimiter: its
    key splits into three parts, unpacking raises [ValueError], and the
    request fails with status 500; no group is emitted for the attempt. *)
Theorem delimiter_in_field_aborts {RT : PyRuntime} (uid : string) :
  get_user_weaknesses uid
    (Ok [test_record (PList [question "a | b" "c" true])])
  = ResponseError 500
      "Error analyzing user weaknesses: too many values to unpack (expected 2)".
Proof. reflexivity. Qed.

(** C6.  In every 200 response the [error_rate] of a weakness is the float
    [(incorrect_answers / total_questions) * 100]: it is within [2^-46] of
    the exact value of [100 * incorrect_answers / total_questions], and it
    lies between 0 and 100. *)
Theorem error_rate_exact_and_bounded {RT : PyRuntime}
        (uid : string) (fetched : result (list pyval)) (body : UserWeaknessResponse) :
  get_user_weaknesses uid fetched = Response200 body ->
  forall w, In w (weaknesses body) ->
    (error_rate w
     == float_mul (true_divide (incorrect_answers w) (total_questions w)) 100
     /\ Qabs (error_rate w
              - 100 * inject_Z (incorrect_answers w) / inject_Z (total_questions w))
        <= 2 ^ (-46)
     /\ 0 <= error_rate w /\ error_rate w <= 100)%Q.
Proof.
  intros H w Hw.
  destruct (response_200_inv _ _ _ H) as (tests & ws & _ & _ & Hok & Hem & ->).
  simpl in Hw. apply (proj1 (sort_desc_In _ _)) in Hw.
  destruct (Forall2_In_r _ _ _ _ Hem Hw) as ([k c] & Hkc & Hfrom).
  rewrite Forall_forall in Hok. specialize (Hok _ Hkc). simpl in Hok.
  destruct Hfrom as (_ & -> & -> & _ & ->).
  cbn [snd error_rate incorrect_answers total_questions].
  destruct Hok as (Ht & Hsum & Hc & Hi).
  unfold compute_error_rate.
  replace (total c >? 0)%Z with true by (symmetry; apply Z.gtb_lt; lia).
  destruct (float_rate_bounds (incorrect c) (total c)) as (H0 & H100 & Herr);
    try lia.
  pose proof (Qred_correct (float_mul (true_divide (incorrect c) (total c)) 100))
    as Hq.
  set (r := Qred (float_mul (true_divide (incorrect c) (total c)) 100)) in *.
  split; [exact Hq|].
  split; [|split].
  - setoid_replace
      (r - 100 * inject_Z (incorrect c) / inject_Z (total c))%Q
      with (float_mul (true_divide (incorrect c) (total c)) 100
            - 100 * inject_Z (incorrect c) / inject_Z (total c))%Q
      by (rewrite Hq; reflexivity).
    exact Herr.
  - rewrite Hq. exact H0.
  - rewrite Hq. exact H100.
Qed.

Lemma error_rate_exact_and_bounded_witness :
  (error_rate sample_algebra
   == float_mul (true_divide (incorrect_answers sample_algebra)
                   (total_questions sample_algebra)) 100
   /\ Qabs (error_rate sample_algebra
            - 100 * inject_Z (incorrect_answers sample_algebra)
              / inject_Z (total_questions sample_algebra))
      <= 2 ^ (-46)
   /\ 0 <= error_rate sample_algebra /\ error_rate sample_algebra <= 100)%Q.
Proof.
  apply (error_rate_exact_and_bounded (RT := sample_runtime)
           "u1" (Ok sample_tests) sample_body sample_response).
  simpl. right. right. left. reflexivity.
Defined.

(** C7.  In every 200 response the weaknesses are in descending order of
    error rate: each entry's rate is at least that of the next entry. *)
Theorem weaknesses_sorted_descending {RT : PyRuntime}
        (uid : string) (fetched : result (list pyval)) (body : UserWeaknessResponse) :
  get_user_weaknesses uid fetched = Response200 body ->
  forall i w1 w2,
    nth_error (weaknesses body) i = Some w1 ->
    nth_error (weaknesses body) (S i) = Some w2 ->
    (error_rate w2 <= error_rate w1)%Q.
Proof.
  intros H i w1 w2 H1 H2.
  destruct (response_200_inv _ _ _ H) as (tests & ws & _ & _ & _ & _ & ->).
  simpl in H1, H2.
  exact (Sorted_adjacent _ (sort_desc_Sorted ws) i w1 w2 H1 H2).
Qed.

Lemma weaknesses_sorted_descending_witness :
  (error_rate sample_algebra <= error_rate sample_reading)%Q.
Proof.
  exact (weaknesses_sorted_descending (RT := sample_runtime)
           "u1" (Ok sample_tests) sample_body sample_response
           1%nat sample_reading sample_algebra eq_refl eq_refl).
Defined.

(** C8.  The body of a 200 response is fixed by the user id and the
    sequence of attempts read from the records: every other input from which
    the same attempts are read, and in which no record stops the loop, gets
    the same response, the order of the list included.  Among the weaknesses
    that have the same error rate (the same float), the one whose key was met
    first among the attempts of the input comes first. *)
Theorem aggregation_deterministic_and_stable {RT : PyRuntime}
        (uid : string) (tests : list pyval) (body : UserWeaknessResponse) :
  get_user_weaknesses uid (Ok tests) = Response200 body ->
  (forall tests',
      tests' <> [] ->
      forallb record_passes tests' = true ->
      flat_map record_attempts tests' = flat_map record_attempts tests ->
      get_user_weaknesses uid (Ok tests') = Response200 body)
  /\ forall i j w1 w2,
       (i < j)%nat ->
       nth_error (weaknesses body) i = Some w1 ->
       nth_error (weaknesses body) j = Some w2 ->
       (error_rate w1 == error_rate w2)%Q ->
       (first_index (group_key w1) (map attempt_key (flat_map record_attempts tests))
        < first_index (group_key w2) (map attempt_key (flat_map record_attempts tests)))%nat.
Proof.
  intros H. split.
  - intros tests' Hne' Hpass' Hsame.
    destruct (response_200_conditions uid tests body H) as (Hne & Hpass & Hkeys).
    destruct (conditions_response_200 uid tests Hne Hpass Hkeys) as (ws & Hb & Hr).
    rewrite H in Hr.
    destruct (conditions_response_200 uid tests' Hne' Hpass') as (ws' & Hb' & Hr').
    { now rewrite Hsame. }
    rewrite Hsame, Hb in Hb'. injection Hb' as <-.
    now rewrite Hr', Hr.
  - intros i j w1 w2 Hij H1 H2 Hrate.
    destruct (response_200_inv _ _ _ H) as (tests' & ws & Heq & _ & _ & Hem & ->).
    injection Heq as <-. simpl in H1, H2.
    apply before_first_seen.
    rewrite <- tally_first_seen, <- (emitted_group_keys _ _ Hem).
    apply before_map.
    apply (before_of_filter (has_rate (error_rate w1))).
    rewrite <- sort_desc_stable.
    apply before_filter.
    + unfold has_rate. apply Qeq_bool_iff. reflexivity.
    + unfold has_rate. apply Qeq_bool_iff. now symmetry.
    + exact (before_nth _ i j w1 w2 Hij H1 H2).
Qed.

Lemma aggregation_deterministic_and_stable_witness :
  (first_index (group_key sample_geometry)
     (map (attempt_key (RT := sample_runtime))
        (flat_map (record_attempts (RT := sample_runtime)) sample_tests))
   < first_index (group_key sample_reading)
       (map (attempt_key (RT := sample_runtime))
          (flat_map (record_attempts (RT := sample_runtime)) sample_tests)))%nat.
Proof.
  apply (proj2 (aggregation_deterministic_and_stable (RT := sample_runtime)
                  "u1" sample_tests sample_body sample_response)
           0%nat 1%nat sample_geometry sample_reading).
  - lia.
  - reflexivity.
  - reflexivity.
  - reflexivity.
Defined.

(** C9.  An attempt that lacks [subtopic] is processed as if it carried
    [subtopic = "Unknown"], one that lacks [section] as if it carried
    [section = "Unknown"], and one that lacks [isCorrect] as if it carried
    [isCorrect = False]: its bucket gets one more incorrect answer.  An
    attempt lacking all three is counted as incorrect in the bucket
    [Unknown | Unknown], which is emitted with subtopic and section
    [Unknown]. *)
Theorem missing_fields_default {RT : PyRuntime} (d : attempt) (st : stats_map) :
  (assoc_lookup "subtopic" d = None ->
   process_question (PDict d) st
   = process_question (PDict (("subtopic", PStr "Unknown") :: d)) st)
  /\ (assoc_lookup "section" d = None ->
      process_question (PDict d) st
      = process_question (PDict (("section", PStr "Unknown") :: d)) st)
  /\ (assoc_lookup "isCorrect" d = None ->
      process_question (PDict d) st
      = process_question (PDict (("isCorrect", PBool false) :: d)) st
      /\ process_question (PDict d) st
         = (update_item (attempt_key d) incr_total
              (update_item (attempt_key d) incr_incorrect st), Ok tt))
  /\ (assoc_lookup "subtopic" d = None ->
      assoc_lookup "section" d = None ->
      assoc_lookup "isCorrect" d = None ->
      process_question (PDict d) st
      = (update_item "Unknown | Unknown" incr_total
           (update_item "Unknown | Unknown" incr_incorrect st), Ok tt)
      /\ split " | " "Unknown | Unknown" = ["Unknown"; "Unknown"]).
Proof.
  rewrite !process_question_dict.
  unfold count_attempt, attempt_key, attempt_correct, attempt_get. simpl.
  split; [|split; [|split]].
  - now intros ->.
  - now intros ->.
  - intros ->. now split.
  - intros -> -> ->. now split.
Qed.

Lemma missing_fields_default_witness :
  process_question (RT := sample_runtime) (PDict []) []
  = ([("Unknown | Unknown", {| correct := 0; incorrect := 1; total := 1 |})], Ok tt)
  /\ split " | " "Unknown | Unknown" = ["Unknown"; "Unknown"].
Proof.
  exact (proj2 (proj2 (proj2
           (missing_fields_default (RT := sample_runtime) [] [])))
           eq_refl eq_refl eq_refl).
Defined.

(** C10.  Every weakness of a 200 response has [total_questions >= 1] and
    [correct_answers + incorrect_answers = total_questions]: an accumulator
    entry exists only once an attempt was counted under its key. *)
Theorem emitted_counts_invariant {RT : PyRuntime}
        (uid : string) (fetched : result (list pyval)) (body : UserWeaknessResponse) :
  get_user_weaknesses uid fetched = Response200 body ->
  forall w, In w (weaknesses body) ->
    (1 <= total_questions w
     /\ correct_answers w + incorrect_answers w = total_questions w)%Z.
Proof.
  intros H w Hw.
  destruct (response_200_inv _ _ _ H) as (tests & ws & _ & _ & Hok & Hem & ->).
  simpl in Hw. apply (proj1 (sort_desc_In _ _)) in Hw.
  destruct (Forall2_In_r _ _ _ _ Hem Hw) as ([k c] & Hkc & Hfrom).
  rewrite Forall_forall in Hok. specialize (Hok _ Hkc). simpl in Hok.
  destruct Hfrom as (_ & _ & -> & -> & ->). simpl.
  destruct Hok as (Ht & Hsum & _). now split.
Qed.

Lemma emitted_counts_invariant_witness :
  (1 <= total_questions sample_algebra
   /\ correct_answers sample_algebra + incorrect_answers sample_algebra
      = total_questions sample_algebra)%Z.
Proof.
  apply (emitted_counts_invariant (RT := sample_runtime)
           "u1" (Ok sample_tests) sample_body sample_response).
  simpl. right. right. left. reflexivity.
Defined.

(** * Further properties of the endpoint *)

Lemma sorted_emitted_sum {RT : PyRuntime}
      (ds : list attempt) (ws : list SubtopicWeakness) :
  Forall2 emitted_from (fold_left count_attempt ds []) ws ->
  sum_Z (fun w => correct_answers w + incorrect_answers w)%Z (sort_desc ws)
  = Z.of_nat (List.length ds).
Proof.
  intros Hem.
  rewrite sum_Z_sort_desc, (emitted_sum _ _ (tally_ok ds [] (Forall_nil _)) Hem).
  now rewrite tally_sum.
Qed.

(** X1.  Every 200 response reports as [total_areas_analyzed] the number of
    its weaknesses, and its counts add up to the number of attempts of the
    records that were not skipped. *)
Theorem response_counts_every_attempt {RT : PyRuntime}
        (uid : string) (tests : list pyval) (body : UserWeaknessResponse) :
  get_user_weaknesses uid (Ok tests) = Response200 body ->
  total_areas_analyzed body = Z.of_nat (List.length (weaknesses body))
  /\ sum_Z (fun w => correct_answers w + incorrect_answers w)%Z (weaknesses body)
     = Z.of_nat (List.length (flat_map record_attempts tests)).
Proof.
  intros H.
  destruct (response_200_inv _ _ _ H) as (tests' & ws & Heq & _ & _ & Hem & ->).
  injection Heq as <-. cbn [weaknesses total_areas_analyzed].
  split; [reflexivity|].
  now apply sorted_emitted_sum.
Qed.

Lemma response_counts_every_attempt_witness :
  total_areas_analyzed sample_body = Z.of_nat (List.length (weaknesses sample_body))
  /\ sum_Z (fun w => correct_answers w + incorrect_answers w)%Z (weaknesses sample_body)
     = Z.of_nat (List.length
                   (flat_map (record_attempts (RT := sample_runtime)) sample_tests)).
Proof.
  exact (response_counts_every_attempt (RT := sample_runtime)
           "u1" sample_tests sample_body sample_response).
Defined.

(** X2.  For a non-empty input of well-formed records in which no subtopic and
    no section contains a bar, the endpoint answers 200 and the counts of
    the emitted groups add up to the number of attempts of the input. *)
Theorem well_formed_plain_input_succeeds {RT : PyRuntime}
        (uid : string) (tests : list pyval) :
  tests <> [] ->
  forallb well_formed_record tests = true ->
  forallb plain_attempt (flat_map record_attempts tests) = true ->
  exists body,
    get_user_weaknesses uid (Ok tests) = Response200 body
    /\ sum_Z (fun w => correct_answers w + incorrect_answers w)%Z (weaknesses body)
       = Z.of_nat (List.length (flat_map record_attempts tests)).
Proof.
  intros Hne Hwf Hplain.
  destruct (build_weaknesses_total
              (fold_left count_attempt (flat_map record_attempts tests) []))
    as [ws Hws].
  { intros k c Hin.
    destruct (tally_keys_from_attempts _ _ _ Hin) as (d & Hd & <-).
    rewrite forallb_forall in Hplain.
    rewrite (plain_attempt_splits d (Hplain d Hd)). eauto. }
  assert (Hrun : get_user_weaknesses uid (Ok tests)
                 = Response200
                     {| user_id := uid;
                        weaknesses := sort_desc ws;
                        total_areas_analyzed :=
                          Z.of_nat (List.length (sort_desc ws)) |}).
  { unfold get_user_weaknesses, analyze.
    destruct tests as [|t tests]; [congruence|].
    rewrite (for_each_test_well_formed (t :: tests) [] Hwf).
    now rewrite Hws. }
  eexists. split; [exact Hrun|].
  destruct (response_200_inv _ _ _ Hrun) as (tests' & ws' & Heq & _ & _ & Hem & Hb).
  injection Heq as <-. injection Hb as Hb. cbn [weaknesses]. rewrite Hb.
  now apply sorted_emitted_sum.
Qed.

Lemma well_formed_plain_input_succeeds_witness :
  exists body,
    get_user_weaknesses (RT := sample_runtime) "u1" (Ok sample_tests)
    = Response200 body
    /\ sum_Z (fun w => correct_answers w + incorrect_answers w)%Z (weaknesses body)
       = Z.of_nat (List.length
                     (flat_map (record_attempts (RT := sample_runtime)) sample_tests)).
Proof.
  apply (well_formed_plain_input_succeeds (RT := sample_runtime) "u1" sample_tests).
  - discriminate.
  - reflexivity.
  - reflexivity.
Defined.

(** X3.  Records that are skipped do not change the response, as long as some
    record is left. *)
Theorem skipped_records_are_ignored {RT : PyRuntime}
        (uid : string) (tests : list pyval) :
  filter (fun t => negb (skipped_record t)) tests <> [] ->
  get_user_weaknesses uid (Ok tests)
  = get_user_weaknesses uid
      (Ok (filter (fun t => negb (skipped_record t)) tests)).
Proof.
  intros Hne. unfold get_user_weaknesses, analyze.
  destruct tests as [|t tests]; [reflexivity|].
  rewrite (for_each_test_skipped (t :: tests) []).
  destruct (filter (fun t0 => negb (skipped_record t0)) (t :: tests));
    [congruence | reflexivity].
Qed.

Lemma skipped_records_are_ignored_witness :
  get_user_weaknesses (RT := sample_runtime) "u1"
    (Ok [test_record (PStr "not json");
         test_record (PList [question "Algebra" "Math" false]);
         PDict [("user_id", PStr "u1")];
         test_record (PInt 7)])
  = get_user_weaknesses (RT := sample_runtime) "u1"
      (Ok [test_record (PList [question "Algebra" "Math" false])]).
Proof.
  apply (skipped_records_are_ignored (RT := sample_runtime) "u1"
           [test_record (PStr "not json");
            test_record (PList [question "Algebra" "Math" false]);
            PDict [("user_id", PStr "u1")];
            test_record (PInt 7)]).
  discriminate.
Defined.

(** X4.  In a 200 response the keys of the weaknesses are pairwise distinct,
    every counted attempt has its key among them, and each weakness counts
    the attempts filed under its key: all of them in [total_questions], the
    correct ones in [correct_answers], the others in [incorrect_answers]. *)
Theorem groups_count_attempts_by_key {RT : PyRuntime}
        (uid : string) (tests : list pyval) (body : UserWeaknessResponse) :
  get_user_weaknesses uid (Ok tests) = Response200 body ->
  NoDup (map group_key (weaknesses body))
  /\ (forall d, In d (flat_map record_attempts tests) ->
        In (attempt_key d) (map group_key (weaknesses body)))
  /\ forall w, In w (weaknesses body) ->
       let mine := attempts_with_key (group_key w) (flat_map record_attempts tests) in
       (total_questions w = Z.of_nat (List.length mine)
        /\ correct_answers w = Z.of_nat (List.length (filter attempt_correct mine))
        /\ incorrect_answers w
           = Z.of_nat (List.length
                         (filter (fun d => negb (attempt_correct d)) mine)))%Z.
Proof.
  intros H.
  destruct (response_200_inv _ _ _ H) as (tests' & ws & Heq & _ & Hok & Hem & ->).
  injection Heq as <-. cbn [weaknesses].
  assert (Hkeys : Permutation (map group_key (sort_desc ws))
                    (first_seen (map attempt_key (flat_map record_attempts tests)))).
  { rewrite <- tally_first_seen, <- (emitted_group_keys _ _ Hem).
    apply Permutation_map, sort_desc_Permutation. }
  split; [|split].
  - apply (Permutation_NoDup (Permutation_sym Hkeys)), first_seen_NoDup.
  - intros d Hd. apply (Permutation_in _ (Permutation_sym Hkeys)).
    apply first_seen_In. now apply in_map.
  - intros w Hw. apply (proj1 (sort_desc_In _ _)) in Hw.
    destruct (Forall2_In_r _ _ _ _ Hem Hw) as ([k c] & Hkc & Hfrom).
    rewrite (emitted_group_key _ _ Hfrom).
    destruct Hfrom as (_ & _ & -> & -> & ->). simpl.
    now apply tally_entry_counts.
Qed.

Lemma groups_count_attempts_by_key_witness :
  total_questions sample_algebra
  = Z.of_nat (List.length
                (attempts_with_key (RT := sample_runtime) (group_key sample_algebra)
                   (flat_map (record_attempts (RT := sample_runtime)) sample_tests))).
Proof.
  apply (proj2 (proj2 (groups_count_attempts_by_key (RT := sample_runtime)
                         "u1" sample_tests sample_body sample_response))
           sample_algebra).
  simpl. right. right. left. reflexivity.
Defined.

(** X5.  Two attempts whose subtopic and section are strings that contain
    no bar (a missing field being read as the string ["Unknown"]) have the
    same key exactly when they have the same subtopic and the same
    section. *)
Theorem plain_keys_identify_pairs {RT : PyRuntime} (d1 d2 : attempt) :
  string_labels d1 = true -> string_labels d2 = true ->
  plain_attempt d1 = true -> plain_attempt d2 = true ->
  (attempt_key d1 = attempt_key d2
   <-> attempt_get d1 "subtopic" (PStr "Unknown")
       = attempt_get d2 "subtopic" (PStr "Unknown")
       /\ attempt_get d1 "section" (PStr "Unknown")
          = attempt_get d2 "section" (PStr "Unknown")).
Proof.
  intros L1 L2 H1 H2. split.
  - intros Hk.
    pose proof (plain_attempt_splits d1 H1) as S1.
    pose proof (plain_attempt_splits d2 H2) as S2.
    rewrite Hk, S2 in S1. injection S1 as Ha Hb.
    unfold string_labels in L1, L2.
    apply andb_prop in L1. apply andb_prop in L2.
    destruct L1 as [La1 Lb1], L2 as [La2 Lb2].
    destruct (attempt_get d1 "subtopic" (PStr "Unknown")); try discriminate.
    destruct (attempt_get d2 "subtopic" (PStr "Unknown")); try discriminate.
    destruct (attempt_get d1 "section" (PStr "Unknown")); try discriminate.
    destruct (attempt_get d2 "section" (PStr "Unknown")); try discriminate.
    simpl in Ha, Hb. subst. now split.
  - intros [Ha Hb]. unfold attempt_key. now rewrite Ha, Hb.
Qed.

Lemma plain_keys_identify_pairs_witness :
  attempt_key (RT := sample_runtime)
    [("subtopic", PStr "Algebra"); ("section", PStr "Math"); ("isCorrect", PBool true)]
  = attempt_key (RT := sample_runtime)
      [("section", PStr "Math"); ("subtopic", PStr "Algebra")]
  <-> PStr "Algebra" = PStr "Algebra" /\ PStr "Math" = PStr "Math".
Proof.
  exact (plain_keys_identify_pairs (RT := sample_runtime)
           [("subtopic", PStr "Algebra"); ("section", PStr "Math");
            ("isCorrect", PBool true)]
           [("section", PStr "Math"); ("subtopic", PStr "Algebra")]
           eq_refl eq_refl eq_refl eq_refl).
Defined.

(** X6.  The endpoint answers 200 exactly when the fetch returned at least
    one record, no record stops the loop (each has its field missing, or a
    string that does not decode, or a collection that cannot be iterated, or
    a collection of objects only), and the key of every counted attempt
    splits at the delimiter into exactly two parts.  In every other case it
    answers 500; so it does when the fetch itself fails, with the text of
    the exception in the detail. *)
Theorem endpoint_succeeds_iff {RT : PyRuntime} (uid : string) :
  (forall tests,
      ((exists body, get_user_weaknesses uid (Ok tests) = Response200 body)
       <-> tests <> []
           /\ forallb record_passes tests = true
           /\ forallb splits_in_two
                (map attempt_key (flat_map record_attempts tests)) = true)
      /\ ((exists detail,
              get_user_weaknesses uid (Ok tests) = ResponseError 500 detail)
          <-> ~ (tests <> []
                 /\ forallb record_passes tests = true
                 /\ forallb splits_in_two
                      (map attempt_key (flat_map record_attempts tests)) = true)))
  /\ (forall e,
         get_user_weaknesses uid (Raise e)
         = ResponseError 500 ("Error analyzing user weaknesses: " ++ exn_str e)).
Proof.
  split; [|reflexivity].
  intros tests. split; [split|split].
  - intros [body H]. exact (response_200_conditions uid tests body H).
  - intros (Hne & Hpass & Hkeys).
    destruct (conditions_response_200 uid tests Hne Hpass Hkeys) as (ws & _ & H).
    eauto.
  - intros [detail H] (Hne & Hpass & Hkeys).
    destruct (conditions_response_200 uid tests Hne Hpass Hkeys) as (ws & _ & H').
    rewrite H in H'. discriminate.
  - intros Hnot.
    destruct (get_user_weaknesses uid (Ok tests)) as [body|code detail] eqn:H.
    + exfalso. apply Hnot. exact (response_200_conditions uid tests body H).
    + unfold get_user_weaknesses in H.
      destruct (analyze uid (Ok tests)); [discriminate|].
      injection H as <- <-. eauto.
Qed.

Lemma endpoint_succeeds_iff_witness :
  exists body,
    get_user_weaknesses (RT := sample_runtime) "u1" (Ok sample_tests)
    = Response200 body.
Proof.
  apply (proj2 (proj1 (proj1 (endpoint_succeeds_iff (RT := sample_runtime) "u1")
                         sample_tests))).
  split; [discriminate|]. split; reflexivity.
Defined.

Lemma Forall2_In_l {A B : Type} (R : A -> B -> Prop) (l : list A) (l' : list B) (x : A) :
  Forall2 R l l' -> In x l -> exists y, In y l' /\ R x y.
Proof.
  induction 1 as [|a b l l' Hab Hll IH]; intros Hx.
  - destruct Hx.
  - destruct Hx as [<-|Hx].
    + exists b. split; [now left | assumption].
    + destruct (IH Hx) as (y & Hy & HR). exists y. split; [now right | assumption].
Qed.

Lemma first_seen_length (l : list string) :
  (List.length (first_seen l) <= List.length l)%nat.
Proof.
  induction l as [|k l IH]; simpl; [lia|].
  pose proof (filter_length_le (fun k' => negb (String.eqb k k')) (first_seen l)).
  lia.
Qed.

Lemma emitted_length {RT : PyRuntime} (ds : list attempt) (ws : list SubtopicWeakness) :
  Forall2 emitted_from (fold_left count_attempt ds []) ws ->
  List.length (sort_desc ws) = List.length (first_seen (map attempt_key ds)).
Proof.
  intros Hem. rewrite sort_desc_length, <- tally_first_seen, length_map.
  symmetry. exact (Forall2_length Hem).
Qed.

(** X7.  A 200 response has at most as many weaknesses as attempts were
    counted, and its list is empty exactly when no attempt was counted. *)
Theorem groups_bounded_by_attempts {RT : PyRuntime}
        (uid : string) (tests : list pyval) (body : UserWeaknessResponse) :
  get_user_weaknesses uid (Ok tests) = Response200 body ->
  (List.length (weaknesses body)
   <= List.length (flat_map record_attempts tests))%nat
  /\ (weaknesses body = [] <-> flat_map record_attempts tests = []).
Proof.
  intros H.
  destruct (response_200_inv _ _ _ H) as (tests' & ws & Heq & _ & _ & Hem & ->).
  injection Heq as <-. cbn [weaknesses].
  pose proof (emitted_length _ _ Hem) as Hlen.
  pose proof (first_seen_length (map attempt_key (flat_map record_attempts tests)))
    as Hle.
  rewrite length_map in Hle. split; [lia|].
  destruct (flat_map record_attempts tests) as [|d ds]; simpl in Hlen.
  - destruct (sort_desc ws); [tauto | discriminate].
  - destruct (sort_desc ws); [discriminate|]. split; discriminate.
Qed.

Lemma groups_bounded_by_attempts_witness :
  (List.length (weaknesses sample_body)
   <= List.length (flat_map (record_attempts (RT := sample_runtime)) sample_tests))%nat
  /\ (weaknesses sample_body = []
      <-> flat_map (record_attempts (RT := sample_runtime)) sample_tests = []).
Proof.
  exact (groups_bounded_by_attempts (RT := sample_runtime)
           "u1" sample_tests sample_body sample_response).
Defined.

(** X8.  In a 200 response a weakness with at most [2^53] attempts has
    error rate 100 exactly when none of its attempts was correct, and error
    rate 0 exactly when none was incorrect.  (Beyond [2^53] attempts the
    quotient of the two counts can round to 1.) *)
Theorem error_rate_extremes {RT : PyRuntime}
        (uid : string) (fetched : result (list pyval)) (body : UserWeaknessResponse) :
  get_user_weaknesses uid fetched = Response200 body ->
  forall w, In w (weaknesses body) ->
    (total_questions w <= 2 ^ 53)%Z ->
    ((error_rate w == 100)%Q <-> correct_answers w = 0%Z)
    /\ ((error_rate w == 0)%Q <-> incorrect_answers w = 0%Z).
Proof.
  intros H w Hw Hbound.
  destruct (response_200_inv _ _ _ H) as (tests & ws & _ & _ & Hok & Hem & ->).
  simpl in Hw. apply (proj1 (sort_desc_In _ _)) in Hw.
  destruct (Forall2_In_r _ _ _ _ Hem Hw) as ([k c] & Hkc & Hfrom).
  rewrite Forall_forall in Hok. specialize (Hok _ Hkc). simpl in Hok.
  destruct Hfrom as (_ & Hr & Ht' & Hc' & Hi'). simpl in Hr, Ht', Hc', Hi'.
  rewrite Ht' in Hbound. rewrite Hr, Hc', Hi'.
  destruct Hok as (Ht & Hsum & Hc & Hi).
  unfold compute_error_rate.
  replace (total c >? 0)%Z with true by (symmetry; apply Z.gtb_lt; lia).
  destruct (float_rate_extremes (incorrect c) (total c)) as [H100 H0]; try lia.
  rewrite !Qred_correct, H100, H0. split; split; lia.
Qed.

Lemma error_rate_extremes_witness :
  ((error_rate sample_geometry == 100)%Q <-> correct_answers sample_geometry = 0%Z)
  /\ ((error_rate sample_geometry == 0)%Q
      <-> incorrect_answers sample_geometry = 0%Z).
Proof.
  apply (error_rate_extremes (RT := sample_runtime)
           "u1" (Ok sample_tests) sample_body sample_response).
  - simpl. left. reflexivity.
  - discriminate.
Defined.

(** X9.  In a 200 response, every counted attempt whose subtopic and
    section contain no bar is reported under exactly its own subtopic and
    section: joining them into the key and splitting the key gives them
    back. *)
Theorem plain_attempt_keeps_labels {RT : PyRuntime}
        (uid : string) (tests : list pyval) (body : UserWeaknessResponse) :
  get_user_weaknesses uid (Ok tests) = Response200 body ->
  forall d, In d (flat_map record_attempts tests) ->
    plain_attempt d = true ->
    exists w, In w (weaknesses body)
      /\ subtopic w = format_value (attempt_get d "subtopic" (PStr "Unknown"))
      /\ section w = format_value (attempt_get d "section" (PStr "Unknown")).
Proof.
  intros H d Hd Hplain.
  destruct (response_200_inv _ _ _ H) as (tests' & ws & Heq & _ & _ & Hem & ->).
  injection Heq as <-. cbn [weaknesses].
  assert (Hk : In (attempt_key d)
                 (map fst (fold_left count_attempt (flat_map record_attempts tests) []))).
  { rewrite tally_first_seen. apply first_seen_In. now apply in_map. }
  apply in_map_iff in Hk. destruct Hk as ([k c] & Hfst & Hkc). simpl in Hfst. subst k.
  destruct (Forall2_In_l _ _ _ _ Hem Hkc) as (w & Hw & Hfrom).
  exists w. split; [now apply sort_desc_In|].
  destruct Hfrom as [Hs _]. simpl in Hs.
  rewrite (plain_attempt_splits d Hplain) in Hs.
  injection Hs as <- <-. now split.
Qed.

Lemma plain_attempt_keeps_labels_witness :
  exists w, In w (weaknesses sample_body)
    /\ subtopic w = "Reading" /\ section w = "Verbal".
Proof.
  apply (plain_attempt_keeps_labels (RT := sample_runtime)
           "u1" sample_tests sample_body sample_response
           [("subtopic", PStr "Reading"); ("section", PStr "Verbal");
            ("isCorrect", PBool false)]).
  - simpl. right. right. right. right. left. reflexivity.
  - reflexivity.
Defined.

(** ** The order of the records *)

Lemma filter_Permutation {A : Type} (p : A -> bool) (l l' : list A) :
  Permutation l l' -> Permutation (filter p l) (filter p l').
Proof.
  induction 1 as [|x l l' Hp IH|x y l|l l' l'' H1 IH1 H2 IH2]; simpl.
  - constructor.
  - destruct (p x); auto.
  - destruct (p x), (p y); auto. apply perm_swap.
  - now transitivity (filter p l').
Qed.

Lemma counts_eq (c1 c2 : counts) :
  total c1 = total c2 -> correct c1 = correct c2 -> incorrect c1 = incorrect c2 ->
  c1 = c2.
Proof. destruct c1, c2; simpl; intros -> -> ->; reflexivity. Qed.

Lemma emitted_is_emit_weakness (st : stats_map) (ws : list SubtopicWeakness) :
  Forall2 emitted_from st ws -> ws = map emit_weakness st.
Proof.
  induction 1 as [|kc w st ws Hkw Hrest IH]; simpl; [reflexivity|].
  rewrite <- IH. f_equal.
  destruct Hkw as (Hs & Hr & Ht & Hc & Hi).
  unfold emit_weakness. rewrite Hs. simpl.
  destruct w; simpl in *. now subst.
Qed.

Section OrderFacts.

Context {RT : PyRuntime}.

Lemma tally_entry_permuted (ds1 ds2 : list attempt) (k : string) (c : counts) :
  Permutation ds1 ds2 ->
  In (k, c) (fold_left count_attempt ds1 []) ->
  In (k, c) (fold_left count_attempt ds2 []).
Proof.
  intros Hperm Hin.
  assert (Hk : In k (map fst (fold_left count_attempt ds2 []))).
  { rewrite tally_first_seen. apply first_seen_In.
    apply (Permutation_in _ (Permutation_map attempt_key Hperm)).
    apply (proj1 (first_seen_In _ _)). rewrite <- tally_first_seen.
    change k with (fst (k, c)). now apply in_map. }
  apply in_map_iff in Hk. destruct Hk as ([k2 c2] & Hfst & Hin2).
  simpl in Hfst. subst k2.
  replace c with c2; [exact Hin2|].
  destruct (tally_entry_counts _ _ _ Hin) as (Ht & Hc & Hi).
  destruct (tally_entry_counts _ _ _ Hin2) as (Ht2 & Hc2 & Hi2).
  assert (Hmine : Permutation (attempts_with_key k ds1) (attempts_with_key k ds2))
    by (now apply filter_Permutation).
  apply counts_eq.
  - rewrite Ht, Ht2. now rewrite (Permutation_length Hmine).
  - rewrite Hc, Hc2.
    now rewrite (Permutation_length (filter_Permutation attempt_correct _ _ Hmine)).
  - rewrite Hi, Hi2.
    now rewrite (Permutation_length
                   (filter_Permutation (fun d => negb (attempt_correct d)) _ _ Hmine)).
Qed.

Lemma tally_NoDup_entries (ds : list attempt) :
  NoDup (fold_left count_attempt ds []).
Proof. apply (NoDup_map_inv fst). apply tally_NoDup. Qed.

(** The accumulator of a permuted sequence of attempts holds the same
    entries, possibly in another order. *)
Lemma tally_Permutation (ds1 ds2 : list attempt) :
  Permutation ds1 ds2 ->
  Permutation (fold_left count_attempt ds1 []) (fold_left count_attempt ds2 []).
Proof.
  intros Hperm. apply NoDup_Permutation; try apply tally_NoDup_entries.
  intros [k c]. split; apply tally_entry_permuted; [|symmetry]; exact Hperm.
Qed.

End OrderFacts.

(** X10.  The order of the fetched records does not change what is
    reported: if the endpoint answers 200 for a list of records, it answers
    200 for every reordering of the list, with the same weaknesses (same
    labels, counts and rates), up to the order of the list. *)
Theorem record_order_is_irrelevant {RT : PyRuntime}
        (uid : string) (tests1 tests2 : list pyval) (body1 : UserWeaknessResponse) :
  Permutation tests1 tests2 ->
  get_user_weaknesses uid (Ok tests1) = Response200 body1 ->
  exists body2,
    get_user_weaknesses uid (Ok tests2) = Response200 body2
    /\ Permutation (weaknesses body1) (weaknesses body2)
    /\ total_areas_analyzed body2 = total_areas_analyzed body1.
Proof.
  intros Hperm H1.
  assert (Hds : Permutation (flat_map record_attempts tests1)
                  (flat_map record_attempts tests2))
    by (now apply Permutation_flat_map).
  destruct (response_200_conditions uid tests1 body1 H1) as (Hne & Hpass & Hkeys).
  destruct (conditions_response_200 uid tests2) as (ws2 & Hb2 & H2).
  - intros ->. apply Permutation_sym, Permutation_nil in Hperm. contradiction.
  - apply forallb_forall. intros t Ht. rewrite forallb_forall in Hpass.
    apply Hpass. now apply (Permutation_in _ (Permutation_sym Hperm)).
  - apply forallb_forall. intros k Hk. rewrite forallb_forall in Hkeys.
    apply Hkeys.
    now apply (Permutation_in _ (Permutation_sym (Permutation_map attempt_key Hds))).
  - destruct (response_200_inv _ _ _ H1) as (tests' & ws1 & Heq & _ & _ & Hem1 & ->).
    injection Heq as <-.
    assert (Hem2 : Forall2 emitted_from
                     (fold_left count_attempt (flat_map record_attempts tests2) []) ws2).
    { apply build_weaknesses_ok; [|exact Hb2]. apply tally_ok. constructor. }
    assert (Hws : Permutation (sort_desc ws1) (sort_desc ws2)).
    { rewrite !sort_desc_Permutation.
      rewrite (emitted_is_emit_weakness _ _ Hem1), (emitted_is_emit_weakness _ _ Hem2).
      apply Permutation_map. now apply tally_Permutation. }
    eexists. split; [exact H2|]. cbn [weaknesses total_areas_analyzed].
    split; [exact Hws|].
    now rewrite (Permutation_length Hws).
Qed.

Lemma record_order_is_irrelevant_witness :
  exists body2,
    get_user_weaknesses (RT := sample_runtime) "u1" (Ok (rev sample_tests))
    = Response200 body2
    /\ Permutation (weaknesses sample_body) (weaknesses body2)
    /\ total_areas_analyzed body2 = total_areas_analyzed sample_body.
Proof.
  apply (record_order_is_irrelevant (RT := sample_runtime)
           "u1" sample_tests (rev sample_tests) sample_body).
  - apply Permutation_rev.
  - reflexivity.
Defined.

(** ** The parts of a split key *)

Lemma is_prefix_app_r (p v s : string) :
  is_prefix p v = true -> is_prefix p (v ++ s) = true.
Proof.
  revert v. induction p as [|a p IH]; intros v H; [reflexivity|].
  destruct v as [|b v]; [discriminate|].
  cbn [is_prefix String.append] in *.
  destruct (Ascii.eqb a b); [now apply IH | discriminate].
Qed.

Lemma no_start_contains (a : ascii) (sep' pre s : string) :
  no_start (String a sep') pre s = true -> contains (String a sep') pre = false.
Proof.
  induction pre as [|c pre IH]; intros H; [reflexivity|].
  cbn [no_start] in H. apply andb_true_iff in H. destruct H as [Hhere Hrest].
  cbn [contains]. rewrite (IH Hrest), orb_false_r.
  destruct (is_prefix (String a sep') (String c pre)) eqn:E; [|reflexivity].
  rewrite (is_prefix_app_r _ _ s E) in Hhere. discriminate.
Qed.

Lemma no_start_snoc (sep pre s' : string) (c : ascii) :
  no_start sep pre (String c s') = true ->
  is_prefix sep (String c s') = false ->
  no_start sep (pre ++ String c EmptyString) s' = true.
Proof.
  intros Hpre Hc. induction pre as [|b pre IH].
  - cbn [String.append no_start]. now rewrite Hc.
  - cbn [no_start] in Hpre. apply andb_true_iff in Hpre.
    destruct Hpre as [Hhere Hrest].
    change (String b pre ++ String c EmptyString)
      with (String b (pre ++ String c EmptyString)).
    cbn [no_start]. rewrite (IH Hrest), andb_true_r.
    change (String b (pre ++ String c EmptyString) ++ s')
      with (String b ((pre ++ String c EmptyString) ++ s')).
    rewrite string_app_assoc. exact Hhere.
Qed.

Lemma string_of_rev_cons (cur : list ascii) (c : ascii) :
  string_of_list_ascii (rev (c :: cur))
  = string_of_list_ascii (rev cur) ++ String c EmptyString.
Proof.
  simpl. induction (rev cur) as [|x l IH]; simpl; congruence.
Qed.

(** No part of a split contains the separator. *)
Lemma split_scan_parts (a : ascii) (sep' : string) (n : nat) :
  forall (s : string) (cur : list ascii),
    (String.length s <= n)%nat ->
    no_start (String a sep') (string_of_list_ascii (rev cur)) s = true ->
    Forall (fun part => contains (String a sep') part = false)
      (split_scan (String a sep') 0 cur s).
Proof.
  induction n as [|n IH]; intros s cur Hn Hcur.
  - destruct s; [|simpl in Hn; lia].
    constructor; [|constructor]. exact (no_start_contains _ _ _ _ Hcur).
  - destruct s as [|c s].
    + constructor; [|constructor]. exact (no_start_contains _ _ _ _ Hcur).
    + cbn [split_scan].
      destruct (is_prefix (String a sep') (String c s)) eqn:E.
      * constructor; [exact (no_start_contains _ _ _ _ Hcur)|].
        destruct (is_prefix_app _ _ E) as [rest Hrest].
        injection Hrest as -> ->.
        replace (String.length (String a sep') - 1)%nat with (String.length sep')
          by (simpl; lia).
        rewrite split_scan_skip. apply IH; [|reflexivity].
        simpl in Hn. rewrite string_app_length in Hn. lia.
      * apply IH; [simpl in Hn; lia|].
        rewrite string_of_rev_cons. now apply no_start_snoc.
Qed.

Lemma split_parts (k : string) :
  Forall (fun part => contains " | " part = false) (split " | " k).
Proof.
  unfold split. apply (split_scan_parts " " "| " (String.length k)); auto.
Qed.

(** X11.  No subtopic and no section of a 200 response contains the
    delimiter [" | "]: a label that contains it in the input is never
    reported as it was. *)
Theorem labels_never_contain_delimiter {RT : PyRuntime}
        (uid : string) (fetched : result (list pyval)) (body : UserWeaknessResponse) :
  get_user_weaknesses uid fetched = Response200 body ->
  forall w, In w (weaknesses body) ->
    contains " | " (subtopic w) = false /\ contains " | " (section w) = false.
Proof.
  intros H w Hw.
  destruct (response_200_inv _ _ _ H) as (tests & ws & _ & _ & _ & Hem & ->).
  simpl in Hw. apply (proj1 (sort_desc_In _ _)) in Hw.
  destruct (Forall2_In_r _ _ _ _ Hem Hw) as ([k c] & _ & Hfrom).
  destruct Hfrom as [Hs _]. simpl in Hs.
  pose proof (split_parts k) as Hparts. rewrite Hs in Hparts.
  inversion Hparts as [|? ? Ha Hrest]; subst.
  inversion Hrest as [|? ? Hb _]; subst.
  now split.
Qed.

Lemma labels_never_contain_delimiter_witness :
  contains " | " "a" = false /\ contains " | " "| b" = false.
Proof.
  apply (labels_never_contain_delimiter (RT := sample_runtime) "u1"
           (Ok [test_record (PList [question "a |" "b" true;
                                    question "a" "| b" false])])
           {| user_id := "u1";
              weaknesses :=
                [{| subtopic := "a"; section := "| b"; error_rate := 50;
                    total_questions := 2; correct_answers := 1;
                    incorrect_answers := 1 |}];
              total_areas_analyzed := 1 |}
           eq_refl
           {| subtopic := "a"; section := "| b"; error_rate := 50;
              total_questions := 2; correct_answers := 1;
              incorrect_answers := 1 |}).
  simpl. left. reflexivity.
Defined.

(** ** Records fetched twice *)

Lemma keyed_lists_equal (l1 l2 : stats_map) :
  map fst l1 = map fst l2 ->
  NoDup (map fst l1) ->
  (forall k c1 c2, In (k, c1) l1 -> In (k, c2) l2 -> c1 = c2) ->
  l1 = l2.
Proof.
  revert l2. induction l1 as [|[k c] l1 IH]; intros [|[k2 c2] l2] Hk Hnd Hc;
    try discriminate; [reflexivity|].
  simpl in Hk. injection Hk as <- Hk.
  inversion Hnd as [|? ? Hnot Hnd']; subst.
  f_equal.
  - f_equal. apply (Hc k); now left.
  - apply IH; auto. intros k' c1' c2' H1 H2. apply (Hc k'); now right.
Qed.

Lemma filter_app_length {A : Type} (p : A -> bool) (l : list A) :
  List.length (filter p (l ++ l)%list) = (2 * List.length (filter p l))%nat.
Proof. rewrite filter_app, length_app. lia. Qed.

Lemma compute_error_rate_double (c : counts) :
  compute_error_rate (double_counts c) = compute_error_rate c.
Proof.
  unfold compute_error_rate, double_counts. cbn [total incorrect].
  destruct (Z.gtb_spec (total c) 0) as [Hpos|Hneg].
  - replace (2 * total c >? 0)%Z with true by (symmetry; apply Z.gtb_lt; lia).
    apply Qred_complete. apply float_rate_double. lia.
  - replace (2 * total c >? 0)%Z with false; [reflexivity|].
    symmetry. rewrite Z.gtb_ltb. apply Z.ltb_ge. lia.
Qed.

Lemma insert_desc_double (x : SubtopicWeakness) (l : list SubtopicWeakness) :
  insert_desc (double_weakness x) (map double_weakness l)
  = map double_weakness (insert_desc x l).
Proof.
  induction l as [|y l IH]; simpl; [reflexivity|].
  destruct (Qle_bool (error_rate y) (error_rate x)); simpl; [reflexivity|].
  now rewrite IH.
Qed.

Lemma sort_desc_double (l : list SubtopicWeakness) :
  sort_desc (map double_weakness l) = map double_weakness (sort_desc l).
Proof.
  induction l as [|x l IH]; simpl; [reflexivity|].
  now rewrite IH, insert_desc_double.
Qed.

Lemma build_weaknesses_double (st : stats_map) (ws : list SubtopicWeakness) :
  Forall (fun kc => counts_ok (snd kc)) st ->
  build_weaknesses (with_error_rates st) = Ok ws ->
  build_weaknesses
    (with_error_rates (map (fun kc => (fst kc, double_counts (snd kc))) st))
  = Ok (map double_weakness ws).
Proof.
  intros Hok. revert ws.
  induction Hok as [|[k c] st Hc Hst IH]; intros ws H; simpl in H.
  - injection H as <-. reflexivity.
  - simpl in Hc. destruct Hc as (Ht & _).
    replace (total c >=? 1)%Z with true in H by (symmetry; apply Z.geb_le; lia).
    cbn [map with_error_rates fst snd build_weaknesses].
    fold (with_error_rates
            (map (fun kc => (fst kc, double_counts (snd kc))) st)).
    replace (total (double_counts c) >=? 1)%Z with true
      by (symmetry; apply Z.geb_le; unfold double_counts; cbn [total]; lia).
    destruct (split " | " k) as [|a [|b [|x l]]]; try discriminate.
    destruct (build_weaknesses (with_error_rates st)) as [ws'|e]; [|discriminate].
    injection H as <-. rewrite (IH ws' eq_refl).
    now rewrite compute_error_rate_double.
Qed.

Section TwiceFacts.

Context {RT : PyRuntime}.

Lemma first_seen_twice (l : list string) :
  first_seen (l ++ l)%list = first_seen l.
Proof.
  pose proof (fold_add_key (l ++ l)%list []) as H2.
  rewrite fold_left_app, !fold_add_key in H2. simpl in H2.
  assert (Hid : forall m : list string, filter (fun _ => true) m = m).
  { induction m as [|x m IHm]; simpl; congruence. }
  rewrite !Hid in H2. rewrite <- H2.
  rewrite <- (app_nil_r (first_seen l)) at 3. f_equal.
  assert (Hall : forall m, (forall k, In k m -> In k (first_seen l)) ->
            filter (fun k => negb (mem k (first_seen l))) m = []).
  { induction m as [|x m IHm]; intros Hm; simpl; [reflexivity|].
    assert (Hx : mem x (first_seen l) = true).
    { unfold mem. apply existsb_exists. exists x.
      split; [apply Hm; now left | apply String.eqb_refl]. }
    rewrite Hx. simpl. apply IHm. intros k Hk. apply Hm. now right. }
  apply Hall. auto.
Qed.

Lemma tally_twice (ds : list attempt) :
  fold_left count_attempt (ds ++ ds)%list []
  = map (fun kc => (fst kc, double_counts (snd kc))) (fold_left count_attempt ds []).
Proof.
  apply keyed_lists_equal.
  - rewrite map_map. simpl. rewrite !tally_first_seen, map_app.
    apply first_seen_twice.
  - apply tally_NoDup.
  - intros k c1 c2 H1 H2.
    apply in_map_iff in H2. destruct H2 as ([k' c] & Heq & Hin).
    simpl in Heq. injection Heq as -> <-.
    destruct (tally_entry_counts _ _ _ H1) as (Ht & Hc & Hi).
    destruct (tally_entry_counts _ _ _ Hin) as (Ht' & Hc' & Hi').
    unfold attempts_with_key in *. rewrite filter_app in Hc, Hi.
    rewrite filter_app_length in Ht. rewrite filter_app, length_app in Hc, Hi.
    apply counts_eq; unfold double_counts; cbn [total correct incorrect]; lia.
Qed.

End TwiceFacts.

(** X12.  When every fetched record comes twice, the endpoint reports the
    same weaknesses in the same order with the same error rates, and every
    count doubled. *)
Theorem records_fetched_twice {RT : PyRuntime}
        (uid : string) (tests : list pyval) (body : UserWeaknessResponse) :
  get_user_weaknesses uid (Ok tests) = Response200 body ->
  get_user_weaknesses uid (Ok (tests ++ tests)%list)
  = Response200
      {| user_id := uid;
         weaknesses := map double_weakness (weaknesses body);
         total_areas_analyzed := total_areas_analyzed body |}.
Proof.
  intros H.
  destruct (response_200_conditions uid tests body H) as (Hne & Hpass & Hkeys).
  destruct (response_200_inv _ _ _ H) as (tests' & ws & Heq & _ & Hok & Hem & ->).
  injection Heq as <-.
  assert (Hb : build_weaknesses
                 (with_error_rates
                    (fold_left count_attempt (flat_map record_attempts tests) []))
               = Ok ws).
  { destruct (conditions_response_200 uid tests Hne Hpass Hkeys) as (ws' & Hb' & H').
    rewrite H in H'. injection H' as Hsort _.
    pose proof (build_weaknesses_ok _ _ Hok Hb') as Hem'.
    rewrite (emitted_is_emit_weakness _ _ Hem).
    now rewrite Hb', (emitted_is_emit_weakness _ _ Hem'). }
  destruct (conditions_response_200 uid (tests ++ tests)%list) as (ws2 & Hb2 & H2).
  - destruct tests; [congruence | discriminate].
  - rewrite forallb_app, Hpass. reflexivity.
  - rewrite flat_map_app, map_app, forallb_app, Hkeys. reflexivity.
  - rewrite flat_map_app, tally_twice in Hb2.
    rewrite (build_weaknesses_double _ _ Hok Hb) in Hb2. injection Hb2 as <-.
    rewrite H2. cbn [weaknesses total_areas_analyzed].
    now rewrite sort_desc_double, length_map.
Qed.

Lemma records_fetched_twice_witness :
  get_user_weaknesses (RT := sample_runtime) "u1" (Ok (sample_tests ++ sample_tests)%list)
  = Response200
      {| user_id := "u1";
         weaknesses := map double_weakness (weaknesses sample_body);
         total_areas_analyzed := total_areas_analyzed sample_body |}.
Proof.
  exact (records_fetched_twice (RT := sample_runtime)
           "u1" sample_tests sample_body sample_response).
Defined.

(** ** Labels that are not strings *)

(** X13.  A subtopic given as the number 1 and a subtopic given as the
    string ["1"] are written alike in the key: the two attempts are counted
    in one group, reported under the subtopic ["1"]. *)
Theorem number_and_string_labels_merge {RT : PyRuntime} (uid : string) :
  get_user_weaknesses uid
    (Ok [test_record
           (PList [PDict [("subtopic", PInt 1); ("section", PStr "s");
                          ("isCorrect", PBool true)];
                   PDict [("subtopic", PStr "1"); ("section", PStr "s");
                          ("isCorrect", PBool false)]])])
  = Response200
      {| user_id := uid;
         weaknesses :=
           [{| subtopic := "1"; section := "s"; error_rate := 50;
               total_questions := 2; correct_answers := 1;
               incorrect_answers := 1 |}];
         total_areas_analyzed := 1 |}.
Proof. reflexivity. Qed.
